(** * PrivateGPT UI controller ([private_gpt/ui/ui.py])

    A shallow embedding of the turn-handling code of [PrivateGptUi]:
    the source curator, the history builder, the streaming accumulator,
    the turn entry point [_chat] and the document lifecycle operations,
    followed by the properties of each.

    Python strings are [string], dictionaries are [gmap], the mutable
    object [self] together with the document store behind its ingest
    service is threaded through a small state-and-exception monad. *)

From Stdlib Require Import Ascii String.
From stdpp Require Import base option list strings gmap pretty.

Local Open Scope string_scope.
Local Open Scope list_scope.
Local Open Scope nat_scope.

(** ** Constants *)

Definition LF : string := String "010"%char EmptyString.

(** [SOURCES_SEPARATOR = "\n\n Sources: \n"] *)
Definition SOURCES_SEPARATOR : string :=
  LF +:+ LF +:+ " Sources: " +:+ LF.

Definition MODES : list string :=
  ["Query Files"; "Search Files"; "LLM Chat (no context from files)"].

(** ** Python string primitives *)

(** [s.split(sep)] for a non-empty [sep]: scan from the left, cut at every
    non-overlapping occurrence.  [skip] counts the characters of a matched
    separator that remain to be dropped, [cur] is the field being read. *)
Fixpoint split_go (sep : string) (skip : nat) (cur s : string) : list string :=
  match skip with
  | S k =>
      match s with
      | EmptyString => [cur]
      | String _ s' => split_go sep k cur s'
      end
  | O =>
      match s with
      | EmptyString => [cur]
      | String c s' =>
          if String.prefix sep s
          then cur :: split_go sep (String.length sep - 1) "" s'
          else split_go sep 0 (cur +:+ String c "") s'
      end
  end.

Definition str_split (sep s : string) : list string := split_go sep 0 "" s.

(** [sep.join(parts)] *)
Fixpoint str_join (sep : string) (parts : list string) : string :=
  match parts with
  | [] => ""
  | [p] => p
  | p :: ps => p +:+ sep +:+ str_join sep ps
  end.

(** [sub] occurs in [s] at offset [i]. *)
Definition occurs_at (sub s : string) (i : nat) : Prop :=
  ∃ pre post, s = pre +:+ sub +:+ post ∧ String.length pre = i.

Definition contains (sub s : string) : Prop := ∃ i, occurs_at sub s i.

(** ** Data model *)

Definition Metadata : Type := option (gmap string string).

(** Truth value of [doc_metadata]: [None] and the empty dict are false. *)
Definition truthy_metadata (md : Metadata) : bool :=
  match md with
  | None => false
  | Some m => negb (bool_decide (m = ∅))
  end.

(** [doc_metadata.get(key, default) if doc_metadata else default] *)
Definition metadata_get_or (md : Metadata) (key dflt : string) : string :=
  if truthy_metadata md then
    match md with
    | Some m => match m !! key with Some v => v | None => dflt end
    | None => dflt
    end
  else dflt.

(** [IngestedDoc] of the ingest service; [Chunk.document] is one too. *)
Record IngestedDoc := { doc_id : string; doc_metadata : Metadata }.

Record Chunk := { document : IngestedDoc; chunk_text : string }.

(** [class Source(BaseModel)], frozen: equality and hashing are structural. *)
Record Source := { file : string; page : string; text : string }.

Global Instance Source_eq_dec : EqDecision Source.
Proof. solve_decision. Defined.

Inductive MessageRole := SYSTEM | USER | ASSISTANT.

Global Instance MessageRole_eq_dec : EqDecision MessageRole.
Proof. solve_decision. Defined.

Record ChatMessage := { content : string; role : MessageRole }.

Global Instance ChatMessage_eq_dec : EqDecision ChatMessage.
Proof. solve_decision. Defined.

Record ContextFilter := { docs_ids : list string }.

Global Instance ContextFilter_eq_dec : EqDecision ContextFilter.
Proof. solve_decision. Defined.

(** An element of [CompletionGen.response]: a plain [str], a [ChatResponse]
    whose [delta] may be [None], or a value of neither type. *)
Inductive Delta :=
  | DeltaStr (s : string)
  | DeltaChatResponse (delta : option string)
  | DeltaOther.

Record CompletionGen := { response : list Delta }.

(** ** Source curator *)

(** [list(dict.fromkeys(l).keys())]: a dict keeps a key at the position of
    its first insertion. *)
Definition dict_fromkeys_keys {A} `{EqDecision A} (l : list A) : list A :=
  foldl (λ keys k, if decide (k ∈ keys) then keys else keys ++ [k]) [] l.

Definition source_of_chunk (chunk : Chunk) : Source :=
  let doc_metadata := doc_metadata (document chunk) in
  let file_name := metadata_get_or doc_metadata "file_name" "-" in
  let page_label := metadata_get_or doc_metadata "page_label" "-" in
  {| file := file_name; page := page_label; text := chunk_text chunk |}.

Definition curate_sources (sources : list Chunk) : list Source :=
  foldl (λ curated_sources chunk,
           let source := source_of_chunk chunk in
           let curated_sources := curated_sources ++ [source] in
           dict_fromkeys_keys curated_sources)
        [] sources.

(** What the specification asks for: first occurrence wins, later
    duplicates are dropped. *)
Fixpoint first_occurrences {A} `{EqDecision A} (l : list A) : list A :=
  match l with
  | [] => []
  | x :: l' => x :: filter (λ y, y ≠ x) (first_occurrences l')
  end.

(** ** Streaming accumulator *)

(** One iteration of the loop body of [yield_deltas]. *)
Definition accumulate (full_response : string) (delta : Delta) : string :=
  match delta with
  | DeltaStr s => full_response +:+ s
  | DeltaChatResponse d =>
      full_response +:+
        match d with
        | Some t => if decide (t = "") then "" else t
        | None => ""
        end
  | DeltaOther => full_response
  end.

Fixpoint yield_deltas_from (full_response : string) (stream : list Delta)
  : list string :=
  match stream with
  | [] => [full_response]
  | delta :: stream' =>
      let full_response := accumulate full_response delta in
      full_response :: yield_deltas_from full_response stream'
  end.

Definition yield_deltas (completion_gen : CompletionGen) : list string :=
  yield_deltas_from "" (response completion_gen).

(** The text fragment a delta contributes. *)
Definition fragment (delta : Delta) : string :=
  match delta with
  | DeltaStr s => s
  | DeltaChatResponse (Some t) => t
  | DeltaChatResponse None => ""
  | DeltaOther => ""
  end.

(** The order-sensitive concatenation of the fragments of a stream. *)
Definition concat_fragments (stream : list Delta) : string :=
  foldr String.append "" (fragment <$> stream).

(** ** History builder *)

(** [interaction[1].split(SOURCES_SEPARATOR)[0]] *)
Definition strip_sources (assistant_text : string) : string :=
  hd "" (str_split SOURCES_SEPARATOR assistant_text).

Definition interaction_messages (interaction : string * string)
  : list ChatMessage :=
  [ {| content := interaction.1; role := USER |};
    {| content := strip_sources interaction.2; role := ASSISTANT |} ].

Definition history_messages (history : list (string * string))
  : list ChatMessage :=
  concat (interaction_messages <$> history).

Definition build_history (history : list (string * string))
  : list ChatMessage :=
  take 20 (history_messages history).

(** ** Collaborating services held by [self] *)

Record ChatService := {
  stream_chat :
    list ChatMessage → bool → option ContextFilter → CompletionGen
}.

Record ChunksService := {
  retrieve_relevant : string → nat → nat → list Chunk
}.

(** Modelled from the spec: the ingest service (document store) is not part
    of this file; section 6 gives its contract
    [listIngested() -> [Record]], [delete(id)],
    [bulkIngest([(name, path)]) -> [Record]] with
    [Record = {id, metadata?: {file_name, page_label?, ...}}].
    The store is the list of its records; [pipeline name path] stands for
    the parsing and chunking of one file and gives the identifier and the
    remaining metadata of every record it produces. *)
Record IngestService := {
  ingested : list IngestedDoc;
  pipeline : string → string → list (string * gmap string string)
}.

Record PrivateGptUi := {
  _ingest_service : IngestService;
  _chat_service : ChatService;
  _chunks_service : ChunksService;
  _selected_filename : option string;
  mode : string;
  _system_prompt : string
}.

Definition set_ingest_service (svc : IngestService) (self : PrivateGptUi)
  : PrivateGptUi :=
  {| _ingest_service := svc;
     _chat_service := _chat_service self;
     _chunks_service := _chunks_service self;
     _selected_filename := _selected_filename self;
     mode := mode self;
     _system_prompt := _system_prompt self |}.

Definition set_selected_filename (sel : option string) (self : PrivateGptUi)
  : PrivateGptUi :=
  {| _ingest_service := _ingest_service self;
     _chat_service := _chat_service self;
     _chunks_service := _chunks_service self;
     _selected_filename := sel;
     mode := mode self;
     _system_prompt := _system_prompt self |}.

(** ** Calls made on the services, in order *)

Inductive Call :=
  | call_list_ingested
  | call_delete (id : string)
  | call_bulk_ingest (files : list (string * string))
  | call_stream_chat (messages : list ChatMessage) (use_context : bool)
      (context_filter : option ContextFilter)
  | call_retrieve_relevant (query : string) (limit prev_next_chunks : nat).

Global Instance Call_eq_dec : EqDecision Call.
Proof. solve_decision. Defined.

(** ** The monad of methods: state, call log and exceptions *)

Inductive exn :=
  | KeyError (key : string)
  | TypeError.

Inductive outcome (A : Type) :=
  | Return (a : A)
  | Raise (e : exn).
Arguments Return {A} a.
Arguments Raise {A} e.

Record World := { self : PrivateGptUi; calls : list Call }.

Definition M (A : Type) : Type := World → outcome A * World.

Global Instance M_ret : MRet M := λ A a w, (Return a, w).

Global Instance M_bind : MBind M := λ A B f m w,
  match m w with
  | (Return a, w') => f a w'
  | (Raise e, w') => (Raise e, w')
  end.

Definition raise {A} (e : exn) : M A := λ w, (Raise e, w).

Definition get_self : M PrivateGptUi := λ w, (Return (self w), w).

Definition put_self (s : PrivateGptUi) : M unit :=
  λ w, (Return tt, {| self := s; calls := calls w |}).

Definition log (c : Call) : M unit :=
  λ w, (Return tt, {| self := self w; calls := calls w ++ [c] |}).

(** [for x in l: acc = body(acc, x)] *)
Fixpoint for_each {A B} (l : list A) (body : B → A → M B) (acc : B) : M B :=
  match l with
  | [] => mret acc
  | x :: l' => acc' ← body acc x; for_each l' body acc'
  end.

(** [doc_metadata[key]] *)
Definition getitem (md : Metadata) (key : string) : M string :=
  match md with
  | None => raise TypeError
  | Some m =>
      match m !! key with
      | Some v => mret v
      | None => raise (KeyError key)
      end
  end.

(** ** The ingest service *)

Definition list_ingested : M (list IngestedDoc) :=
  log call_list_ingested;;
  s ← get_self;
  mret (ingested (_ingest_service s)).

Definition delete (id : string) : M unit :=
  log (call_delete id);;
  s ← get_self;
  let svc := _ingest_service s in
  put_self
    (set_ingest_service
       {| ingested := filter (λ d, doc_id d ≠ id) (ingested svc);
          pipeline := pipeline svc |} s).

Definition new_records (svc : IngestService) (file : string * string)
  : list IngestedDoc :=
  (λ r : string * gmap string string,
     {| doc_id := r.1;
        doc_metadata := Some (<["file_name" := file.1]> r.2) |})
    <$> pipeline svc file.1 file.2.

Definition bulk_ingest (files : list (string * string))
  : M (list IngestedDoc) :=
  log (call_bulk_ingest files);;
  s ← get_self;
  let svc := _ingest_service s in
  let docs := concat (new_records svc <$> files) in
  put_self
    (set_ingest_service
       {| ingested := ingested svc ++ docs; pipeline := pipeline svc |} s);;
  mret docs.

Definition chat_service_stream_chat (messages : list ChatMessage)
    (use_context : bool) (context_filter : option ContextFilter)
  : M CompletionGen :=
  log (call_stream_chat messages use_context context_filter);;
  s ← get_self;
  mret (stream_chat (_chat_service s) messages use_context context_filter).

Definition chunks_service_retrieve_relevant (query : string)
    (limit prev_next_chunks : nat) : M (list Chunk) :=
  log (call_retrieve_relevant query limit prev_next_chunks);;
  s ← get_self;
  mret (retrieve_relevant (_chunks_service s) query limit prev_next_chunks).

(** ** Turn router *)

Definition render_source (index : nat) (source : Source) : string :=
  pretty index +:+ ". **" +:+ file source +:+ " (page " +:+ page source
    +:+ ")**" +:+ LF +:+ " " +:+ text source.

(** The scan of [_chat] that resolves the selected file name to the
    identifiers of its records: the loop body, then the loop. *)
Definition collect_selected (selected : string) (docs_ids : list string)
    (ingested_document : IngestedDoc) : M (list string) :=
  file_name ← getitem (doc_metadata ingested_document) "file_name";
  mret (if decide (file_name = selected)
        then docs_ids ++ [doc_id ingested_document]
        else docs_ids).

Definition selected_docs_ids (selected : string) (docs : list IngestedDoc)
  : M (list string) :=
  for_each docs (collect_selected selected) [].

(** The messages of a turn: the built history, the new user message and,
    when a system prompt is set, the system message in front. *)
Definition all_messages (s : PrivateGptUi) (message : string)
    (history : list (string * string)) : list ChatMessage :=
  let new_message := {| content := message; role := USER |} in
  let all_messages := build_history history ++ [new_message] in
  if decide (_system_prompt s = "") then all_messages
  else {| content := _system_prompt s; role := SYSTEM |} :: all_messages.

(** [_chat] is a generator; the result is the list of the values it yields. *)
Definition _chat (message : string) (history : list (string * string))
    (mode : string) : M (list string) :=
  let mode := "Query Files" in
  s ← get_self;
  let all_messages := all_messages s message history in
  if decide (mode = "Query Files") then
    context_filter ←
      match _selected_filename s with
      | None => mret None
      | Some selected =>
          docs ← list_ingested;
          docs_ids ← selected_docs_ids selected docs;
          mret (Some {| docs_ids := docs_ids |})
      end;
    query_stream ← chat_service_stream_chat all_messages true context_filter;
    mret (yield_deltas query_stream)
  else if decide (mode = "LLM Chat (no context from files)") then
    llm_stream ← chat_service_stream_chat all_messages false None;
    mret (yield_deltas llm_stream)
  else if decide (mode = "Search Files") then
    response ← chunks_service_retrieve_relevant message 4 0;
    let sources := curate_sources response in
    mret [str_join (LF +:+ LF +:+ LF)
            (imap (λ i source, render_source (S i) source) sources)]
  else mret [].

(** ** Document lifecycle *)

(** The values handed back to the widgets: the table of files (when the
    method refreshes it), the two buttons and the label. *)
Record Widgets := {
  files_table : option (list (list string));
  delete_button_interactive : bool;
  deselect_button_interactive : bool;
  selected_label : string
}.

Definition _list_ingested_files : M (list (list string)) :=
  docs ← list_ingested;
  let files : gset string :=
    foldl (λ files ingested_document,
             match doc_metadata ingested_document with
             | None => files
             | Some m =>
                 let file_name :=
                   default "[FILE NAME MISSING]" (m !! "file_name") in
                 files ∪ {[ file_name ]}
             end)
          ∅ docs in
  mret ((λ row, [row]) <$> elements files).

(** The scan of [_upload_file] for records to replace: the loop body,
    then the loop. *)
Definition collect_replaced (file_names : list string) (ids : list string)
    (ingested_document : IngestedDoc) : M (list string) :=
  if truthy_metadata (doc_metadata ingested_document) then
    file_name ← getitem (doc_metadata ingested_document) "file_name";
    mret (if decide (file_name ∈ file_names)
          then ids ++ [doc_id ingested_document]
          else ids)
  else mret ids.

Definition doc_ids_to_delete (file_names : list string)
    (docs : list IngestedDoc) : M (list string) :=
  for_each docs (collect_replaced file_names) [].

(** [path_name file] is [Path(file).name]. *)
Definition _upload_file (path_name : string → string) (files : list string)
  : M unit :=
  let paths := files in
  let file_names := path_name <$> paths in
  docs ← list_ingested;
  ids ← doc_ids_to_delete file_names docs;
  (if decide (0 < length ids)
   then for_each ids (λ _ id, delete id) tt
   else mret tt);;
  bulk_ingest ((λ path, (path_name path, path)) <$> paths);;
  mret tt.

Definition _delete_all_files : M Widgets :=
  ingested_files ← list_ingested;
  for_each ingested_files
    (λ _ ingested_document, delete (doc_id ingested_document)) tt;;
  rows ← _list_ingested_files;
  mret {| files_table := Some rows;
          delete_button_interactive := false;
          deselect_button_interactive := false;
          selected_label := "All files" |}.

(** The loop body of [_delete_selected_file]. *)
Definition delete_if_selected (_ : unit) (ingested_document : IngestedDoc)
  : M unit :=
  if truthy_metadata (doc_metadata ingested_document) then
    file_name ← getitem (doc_metadata ingested_document) "file_name";
    s ← get_self;
    if decide (Some file_name = _selected_filename s)
    then delete (doc_id ingested_document)
    else mret tt
  else mret tt.

Definition _delete_selected_file : M Widgets :=
  docs ← list_ingested;
  for_each docs delete_if_selected tt;;
  rows ← _list_ingested_files;
  mret {| files_table := Some rows;
          delete_button_interactive := false;
          deselect_button_interactive := false;
          selected_label := "All files" |}.

Definition _deselect_selected_file : M Widgets :=
  s ← get_self;
  put_self (set_selected_filename None s);;
  mret {| files_table := None;
          delete_button_interactive := false;
          deselect_button_interactive := false;
          selected_label := "All files" |}.

Definition _selected_a_file (value : string) : M Widgets :=
  s ← get_self;
  put_self (set_selected_filename (Some value) s);;
  mret {| files_table := None;
          delete_button_interactive := true;
          deselect_button_interactive := true;
          selected_label := value |}.

(** ** Session state *)

(** The default prompts that [settings().ui] holds for the two generating
    modes; the settings are read from configuration and are taken as a
    parameter. *)
Record UiSettings := {
  default_query_system_prompt : string;
  default_chat_system_prompt : string
}.

Definition _get_default_system_prompt (settings : UiSettings) (mode : string)
  : string :=
  if decide (mode = "Query Files") then default_query_system_prompt settings
  else if decide (mode = "LLM Chat (no context from files)")
       then default_chat_system_prompt settings
  else "".

Definition set_system_prompt (prompt : string) (self : PrivateGptUi)
  : PrivateGptUi :=
  {| _ingest_service := _ingest_service self;
     _chat_service := _chat_service self;
     _chunks_service := _chunks_service self;
     _selected_filename := _selected_filename self;
     mode := mode self;
     _system_prompt := prompt |}.

Definition set_mode (new_mode : string) (self : PrivateGptUi)
  : PrivateGptUi :=
  {| _ingest_service := _ingest_service self;
     _chat_service := _chat_service self;
     _chunks_service := _chunks_service self;
     _selected_filename := _selected_filename self;
     mode := new_mode;
     _system_prompt := _system_prompt self |}.

(** [__init__], without the cache of the rendered blocks. *)
Definition __init__ (settings : UiSettings) (ingest_service : IngestService)
    (chat_service : ChatService) (chunks_service : ChunksService)
  : PrivateGptUi :=
  let mode := hd "" MODES in
  {| _ingest_service := ingest_service;
     _chat_service := chat_service;
     _chunks_service := chunks_service;
     _selected_filename := None;
     mode := mode;
     _system_prompt := _get_default_system_prompt settings mode |}.

Definition _set_system_prompt (system_prompt_input : string) : M unit :=
  s ← get_self;
  put_self (set_system_prompt system_prompt_input s).

(** [gr.update(placeholder=..., interactive=...)] *)
Record Update := { placeholder : string; interactive : bool }.

Definition _set_current_mode (settings : UiSettings) (new_mode : string)
  : M Update :=
  s ← get_self;
  put_self (set_mode new_mode s);;
  _set_system_prompt (_get_default_system_prompt settings new_mode);;
  s ← get_self;
  if bool_decide (_system_prompt s ≠ "")
  then mret {| placeholder := _system_prompt s; interactive := true |}
  else mret {| placeholder := _system_prompt s; interactive := false |}.

(** ** Observations on a run *)

(** The calls a method makes when it is run in [w]. *)
Definition calls_made {A} (m : M A) (w : World) : list Call :=
  drop (length (calls w)) (calls (m w).2).

(** The records of the store of [w]. *)
Definition store (w : World) : list IngestedDoc :=
  ingested (_ingest_service (self w)).

(** The file name a record carries in its metadata, if any. *)
Definition file_name_of (d : IngestedDoc) : option string :=
  m ← doc_metadata d; m !! "file_name".

(** The record carries one of the given file names. *)
Definition named_in (names : list string) (d : IngestedDoc) : Prop :=
  match file_name_of d with
  | Some n => n ∈ names
  | None => False
  end.

Global Instance named_in_dec names d : Decision (named_in names d).
Proof. unfold named_in. destruct (file_name_of d); apply _. Defined.

(** The record can be read by the scans that guard on the truth value of
    the metadata: metadata that is not empty has a file name. *)
Definition guarded_readable (d : IngestedDoc) : Prop :=
  truthy_metadata (doc_metadata d) = true → is_Some (file_name_of d).

Global Instance guarded_readable_dec d : Decision (guarded_readable d).
Proof. unfold guarded_readable. apply _. Defined.

(** The name under which [_list_ingested_files] shows a record: none for
    a record without metadata, the placeholder for metadata without a file
    name. *)
Definition listed_name (d : IngestedDoc) : option string :=
  m ← doc_metadata d; Some (default "[FILE NAME MISSING]" (m !! "file_name")).

(** ** Concrete objects used in the examples *)

Definition file_md (name : string) : Metadata :=
  Some {[ "file_name" := name ]}.

Definition page_md (name label : string) : Metadata :=
  Some (<["page_label" := label]> {[ "file_name" := name ]}).

(** A generation service that answers every request with the same three
    deltas, a retrieval service without results and a pipeline that makes
    one record per file. *)
Definition demo_chat_service : ChatService :=
  {| stream_chat := λ _ _ _,
       {| response := [DeltaStr "Hel"; DeltaChatResponse (Some "lo");
                       DeltaChatResponse None] |} |}.

Definition demo_chunks_service : ChunksService :=
  {| retrieve_relevant := λ _ _ _, [] |}.

Definition demo_pipeline (name path : string)
  : list (string * gmap string string) :=
  [("new:" +:+ path, ∅)].

Definition demo_ui (docs : list IngestedDoc) (selected : option string)
  : PrivateGptUi :=
  {| _ingest_service := {| ingested := docs; pipeline := demo_pipeline |};
     _chat_service := demo_chat_service;
     _chunks_service := demo_chunks_service;
     _selected_filename := selected;
     mode := "Query Files";
     _system_prompt := "You answer from the documents." |}.

Definition demo_world (docs : list IngestedDoc) (selected : option string)
  : World :=
  {| self := demo_ui docs selected; calls := [] |}.

(** A transcript of [n] pairs. *)
Definition demo_history (n : nat) : list (string * string) :=
  (λ i, ("q" +:+ pretty i, "r" +:+ pretty i)) <$> seq 0 n.

(** [Path(path).name] for a POSIX path: the last component of the path
    that is neither empty nor ".", the empty string when there is none. *)
Definition posix_name (path : string) : string :=
  default "" (last (filter (λ c, c ≠ "" ∧ c ≠ ".") (str_split "/" path))).

(** * Properties *)

(** ** Strings *)

Lemma string_app_cons (c : ascii) (s t : string) :
  String c s +:+ t = String c (s +:+ t).
Proof. reflexivity. Qed.

Lemma string_app_nil_l (s : string) : "" +:+ s = s.
Proof. reflexivity. Qed.

Lemma string_app_nil_r (s : string) : s +:+ "" = s.
Proof.
  induction s as [|c s IH]; [done|]. by rewrite string_app_cons, IH.
Qed.

Lemma string_app_assoc (s1 s2 s3 : string) :
  (s1 +:+ s2) +:+ s3 = s1 +:+ (s2 +:+ s3).
Proof.
  induction s1 as [|c s1 IH]; [done|]. by rewrite !string_app_cons, IH.
Qed.

Lemma string_length_app (s1 s2 : string) :
  String.length (s1 +:+ s2) = String.length s1 + String.length s2.
Proof.
  induction s1 as [|c s1 IH]; [done|].
  rewrite string_app_cons. simpl. by rewrite IH.
Qed.

Lemma prefix_app (sub s : string) :
  String.prefix sub s = true ↔ ∃ post, s = sub +:+ post.
Proof.
  revert s. induction sub as [|c sub IH]; intros s.
  - split; [intros _; exists s; reflexivity | by destruct s].
  - destruct s as [|c' s]; simpl.
    { split; [done | intros [? ?]; done]. }
    destruct (ascii_dec c c') as [->|Hne].
    + rewrite IH. split; intros [post Hpost]; exists post.
      * by rewrite string_app_cons, Hpost.
      * rewrite string_app_cons in Hpost. congruence.
    + split; [done | intros [post Hpost]].
      rewrite string_app_cons in Hpost. congruence.
Qed.

Lemma occurs_at_0 (sub s : string) :
  occurs_at sub s 0 ↔ String.prefix sub s = true.
Proof.
  rewrite prefix_app. split.
  - intros (pre & post & -> & Hlen). destruct pre; [|done]. by exists post.
  - intros [post ->]. by exists "", post.
Qed.

Lemma occurs_at_S (sub : string) (c : ascii) (s : string) (j : nat) :
  occurs_at sub (String c s) (S j) ↔ occurs_at sub s j.
Proof.
  split.
  - intros (pre & post & Heq & Hlen). destruct pre as [|c' pre]; [done|].
    rewrite string_app_cons in Heq. simpl in Hlen.
    exists pre, post. split; congruence.
  - intros (pre & post & -> & Hlen). exists (String c pre), post.
    simpl. by rewrite Hlen.
Qed.

Lemma not_contains_empty (sub : string) : sub ≠ "" → ¬ contains sub "".
Proof.
  intros Hne (i & pre & post & Heq & _).
  destruct pre; [destruct sub|]; done.
Qed.

(** The first field of a split is the text before the leftmost occurrence
    of the separator, or the whole text when there is none. *)
Lemma split_go_hd (sep : string) (s cur : string) :
  sep ≠ "" →
  (∃ pre post,
      s = pre +:+ sep +:+ post ∧
      (∀ j, j < String.length pre → ¬ occurs_at sep s j) ∧
      hd "" (split_go sep 0 cur s) = cur +:+ pre)
  ∨ (¬ contains sep s ∧ hd "" (split_go sep 0 cur s) = cur +:+ s).
Proof.
  intros Hsep. revert cur. induction s as [|c s IH]; intros cur.
  - right. split; [by apply not_contains_empty|].
    simpl. by rewrite string_app_nil_r.
  - cbn [split_go]. destruct (String.prefix sep (String c s)) eqn:Hpre.
    + left. apply prefix_app in Hpre as [post Hpost].
      exists "", post. split; [done|]. split; [simpl; lia|].
      simpl. by rewrite string_app_nil_r.
    + destruct (IH (cur +:+ String c "")) as
        [(pre & post & Hs & Hfirst & Hhd)|[Hnone Hhd]].
      * left. exists (String c pre), post.
        split; [by rewrite string_app_cons, Hs|].
        split.
        -- intros [|j] Hj Hocc.
           ++ apply occurs_at_0 in Hocc. congruence.
           ++ apply occurs_at_S in Hocc. simpl in Hj.
              apply (Hfirst j); [lia | done].
        -- rewrite Hhd. by rewrite string_app_assoc.
      * right. split.
        -- intros [[|j] Hocc].
           ++ apply occurs_at_0 in Hocc. congruence.
           ++ apply occurs_at_S in Hocc. apply Hnone. by exists j.
        -- rewrite Hhd. by rewrite string_app_assoc.
Qed.

Lemma occurs_at_app_l (sub pre rest : string) (j : nat) :
  occurs_at sub pre j → occurs_at sub (pre +:+ rest) j.
Proof.
  intros (p & q & -> & Hlen). exists p, (q +:+ rest).
  split; [|done]. by rewrite !string_app_assoc.
Qed.

Lemma occurs_at_lt (sub s : string) (j : nat) :
  sub ≠ "" → occurs_at sub s j → j < String.length s.
Proof.
  intros Hne (p & q & -> & Hlen). rewrite !string_length_app.
  destruct sub; [done|]. simpl. lia.
Qed.

(** ** History builder *)

Lemma separator_nonempty : SOURCES_SEPARATOR ≠ "".
Proof. done. Qed.

Lemma stripped_spec (a : string) :
  (∃ rest,
      a = strip_sources a +:+ SOURCES_SEPARATOR +:+ rest ∧
      ∀ j, j < String.length (strip_sources a) →
           ¬ occurs_at SOURCES_SEPARATOR a j)
  ∨ (¬ contains SOURCES_SEPARATOR a ∧ strip_sources a = a).
Proof.
  unfold strip_sources, str_split.
  destruct (split_go_hd SOURCES_SEPARATOR a "" separator_nonempty)
    as [(pre & post & Ha & Hfirst & Hhd)|[Hnone Hhd]];
    rewrite string_app_nil_l in Hhd.
  - left. exists post. rewrite Hhd. done.
  - right. by rewrite Hhd.
Qed.

Lemma stripped_no_separator (a : string) :
  ¬ contains SOURCES_SEPARATOR (strip_sources a).
Proof.
  destruct (stripped_spec a) as [(rest & Ha & Hfirst)|[Hnone ->]]; [|done].
  intros [j Hocc]. apply (Hfirst j).
  - eapply occurs_at_lt; [apply separator_nonempty | done].
  - rewrite Ha at 1. by apply occurs_at_app_l.
Qed.

Lemma history_messages_cons (p : string * string)
    (history : list (string * string)) :
  history_messages (p :: history)
  = interaction_messages p ++ history_messages history.
Proof. reflexivity. Qed.

Lemma history_messages_lookup (history : list (string * string)) (k : nat)
    (u a : string) :
  history !! k = Some (u, a) →
  history_messages history !! (2 * k) = Some {| content := u; role := USER |}
  ∧ history_messages history !! (2 * k + 1)
    = Some {| content := strip_sources a; role := ASSISTANT |}.
Proof.
  revert k. induction history as [|p history IH]; intros k Hk; [done|].
  rewrite history_messages_cons. destruct k as [|k].
  - simpl in Hk. injection Hk as ->. done.
  - simpl in Hk. destruct (IH k Hk) as [IHu IHa].
    replace (2 * S k) with (S (S (2 * k))) by lia.
    replace (S (S (2 * k)) + 1) with (S (S (2 * k + 1))) by lia.
    done.
Qed.

Lemma length_history_messages (history : list (string * string)) :
  length (history_messages history) = 2 * length history.
Proof.
  induction history as [|p history IH]; [done|].
  rewrite history_messages_cons, length_app, IH. simpl. lia.
Qed.

Lemma elem_of_history_messages (history : list (string * string))
    (m : ChatMessage) :
  m ∈ history_messages history →
  ∃ u a, (u, a) ∈ history ∧
    (m = {| content := u; role := USER |}
     ∨ m = {| content := strip_sources a; role := ASSISTANT |}).
Proof.
  induction history as [|[u a] history IH]; [by intros ?%not_elem_of_nil|].
  rewrite history_messages_cons, elem_of_app. intros [Hm|Hm].
  - exists u, a. split; [apply elem_of_cons; by left|].
    unfold interaction_messages in Hm. simpl in Hm.
    apply elem_of_cons in Hm as [->|Hm]; [by left|].
    apply elem_of_cons in Hm as [->|Hm]; [by right|].
    by apply not_elem_of_nil in Hm.
  - destruct (IH Hm) as (u' & a' & Hin & Hcase).
    exists u', a'. split; [apply elem_of_cons; by right | done].
Qed.

Lemma length_build_history (history : list (string * string)) :
  length (build_history history) = 20 `min` (2 * length history).
Proof.
  unfold build_history. by rewrite length_take, length_history_messages.
Qed.

(** C8: for every pair of the transcript, the assistant message the
    history builder makes of it carries the stored assistant text up to,
    and without, the first occurrence of the sources separator: the
    content holds no separator, it is followed in the stored text by the
    first separator when there is one, and it is the stored text itself
    when there is none.  Every assistant message of the built history is
    of this kind. *)
Theorem build_history_strips_sources (history : list (string * string)) :
  (∀ k u a, history !! k = Some (u, a) →
     history_messages history !! (2 * k + 1)
       = Some {| content := strip_sources a; role := ASSISTANT |}
     ∧ (2 * k + 1 < 20 →
        build_history history !! (2 * k + 1)
          = Some {| content := strip_sources a; role := ASSISTANT |})
     ∧ ¬ contains SOURCES_SEPARATOR (strip_sources a)
     ∧ (contains SOURCES_SEPARATOR a →
        ∃ rest, a = strip_sources a +:+ SOURCES_SEPARATOR +:+ rest ∧
          ∀ j, j < String.length (strip_sources a) →
               ¬ occurs_at SOURCES_SEPARATOR a j)
     ∧ (¬ contains SOURCES_SEPARATOR a → strip_sources a = a))
  ∧ (∀ m, m ∈ build_history history → role m = ASSISTANT →
       ∃ u a, (u, a) ∈ history ∧ content m = strip_sources a
         ∧ ¬ contains SOURCES_SEPARATOR (content m)).
Proof.
  split.
  - intros k u a Hk.
    destruct (history_messages_lookup history k u a Hk) as [_ Ha].
    split; [done|]. split.
    { intros Hlt. unfold build_history. by rewrite lookup_take_lt. }
    split; [apply stripped_no_separator|].
    destruct (stripped_spec a) as [(rest & Heq & Hfirst)|[Hnone Heq]].
    + split; [intros _; by exists rest|].
      intros Hnone. exfalso. apply Hnone.
      exists (String.length (strip_sources a)), (strip_sources a), rest. done.
    + split; [done | by intros _].
  - intros m Hm Hrole. unfold build_history in Hm.
    apply elem_of_take in Hm as (i & Hi & _).
    apply list_elem_of_lookup_2 in Hi.
    apply elem_of_history_messages in Hi as (u & a & Hin & [->| ->]);
      [done|].
    exists u, a. split; [done|]. split; [done|].
    apply stripped_no_separator.
Qed.

Lemma build_history_strips_sources_witness :
  build_history
    [("Hi", "Hello world" +:+ SOURCES_SEPARATOR +:+ "1. doc.pdf")]
  = [ {| content := "Hi"; role := USER |};
      {| content := "Hello world"; role := ASSISTANT |} ]
  ∧ ¬ contains SOURCES_SEPARATOR "Hello world".
Proof.
  pose proof (build_history_strips_sources
    [("Hi", "Hello world" +:+ SOURCES_SEPARATOR +:+ "1. doc.pdf")]) as [H _].
  destruct (H 0 "Hi" ("Hello world" +:+ SOURCES_SEPARATOR +:+ "1. doc.pdf")
              eq_refl) as (_ & _ & Hno & _).
  split; [reflexivity | exact Hno].
Defined.

(** C2: on a transcript of eleven pairs the built history is the first
    twenty messages of the flattened transcript, not the last twenty: the
    oldest pair is kept and the newest pair is dropped. *)
Theorem build_history_keeps_head :
  let history := demo_history 11 in
  let newest := {| content := "q10"; role := USER |} in
  length (history_messages history) = 22
  ∧ build_history history = take 20 (history_messages history)
  ∧ build_history history ≠ drop 2 (history_messages history)
  ∧ build_history history !! 0 = Some {| content := "q0"; role := USER |}
  ∧ (newest ∉ build_history history)
  ∧ newest ∈ drop 2 (history_messages history).
Proof.
  cbv zeta. split; [reflexivity|]. split; [reflexivity|].
  split; [by vm_compute|]. split; [reflexivity|].
  split.
  - apply (bool_decide_unpack _). by vm_compute.
  - apply (bool_decide_unpack _). by vm_compute.
Qed.

(** ** Source curator *)

Section first_occurrences.
Context {A : Type} `{EqDecision A}.
Implicit Types (l keys : list A) (x : A).

Lemma elem_of_first_occurrences l x : x ∈ first_occurrences l ↔ x ∈ l.
Proof.
  revert x. induction l as [|y l IH]; intros x; [done|].
  simpl. rewrite !elem_of_cons, list_elem_of_filter, IH.
  destruct (decide (x = y)); tauto.
Qed.

Lemma NoDup_first_occurrences l : NoDup (first_occurrences l).
Proof.
  induction l as [|y l IH]; simpl; [constructor|].
  constructor; [|by apply NoDup_filter].
  rewrite list_elem_of_filter. by intros [Hne _].
Qed.

Lemma first_occurrences_app l1 l2 :
  first_occurrences (l1 ++ l2)
  = first_occurrences l1 ++ filter (λ y, y ∉ l1) (first_occurrences l2).
Proof.
  induction l1 as [|x l1 IH]; simpl.
  - symmetry. induction (first_occurrences l2) as [|y k IHk]; [done|].
    rewrite filter_cons_True by apply not_elem_of_nil. by rewrite IHk.
  - f_equal. rewrite IH, filter_app. f_equal.
    rewrite list_filter_filter. apply list_filter_iff.
    intros y. rewrite not_elem_of_cons. tauto.
Qed.

(** Inserting the keys of [l] into a dict that holds [keys]. *)
Lemma foldl_insert_keys l keys :
  foldl (λ keys k, if decide (k ∈ keys) then keys else keys ++ [k]) keys l
  = keys ++ filter (λ y, y ∉ keys) (first_occurrences l).
Proof.
  revert keys. induction l as [|x l IH]; intros keys; simpl.
  { by rewrite app_nil_r. }
  rewrite IH. destruct (decide (x ∈ keys)) as [Hin|Hout].
  - rewrite filter_cons_False by tauto. f_equal.
    rewrite list_filter_filter. apply list_filter_iff.
    intros y. split; [|tauto]. intros Hy. split; [done|]. by intros ->.
  - rewrite filter_cons_True by done.
    rewrite <- app_assoc. simpl. do 2 f_equal.
    rewrite list_filter_filter. apply list_filter_iff.
    intros y. rewrite not_elem_of_app, elem_of_cons, elem_of_nil.
    tauto.
Qed.

Lemma dict_fromkeys_keys_first_occurrences l :
  dict_fromkeys_keys l = first_occurrences l.
Proof.
  unfold dict_fromkeys_keys. rewrite foldl_insert_keys. simpl.
  induction (first_occurrences l) as [|y k IHk]; [done|].
  rewrite filter_cons_True by apply not_elem_of_nil. by rewrite IHk.
Qed.

Lemma first_occurrences_NoDup l : NoDup l → first_occurrences l = l.
Proof.
  induction 1 as [|x l Hx Hl IH]; simpl; [done|]. f_equal.
  rewrite IH. clear IH Hl. induction l as [|y l IH]; [done|].
  apply not_elem_of_cons in Hx as [Hne Hx].
  rewrite filter_cons_True by done. by rewrite IH.
Qed.
End first_occurrences.

Lemma curate_sources_snoc (sources : list Chunk) (chunk : Chunk) :
  curate_sources (sources ++ [chunk])
  = dict_fromkeys_keys (curate_sources sources ++ [source_of_chunk chunk]).
Proof. unfold curate_sources. by rewrite foldl_snoc. Qed.

(** C9: the curated list is the list of the chunks' sources with every
    source kept at its first occurrence and dropped afterwards; it holds no
    source twice, and it holds exactly the sources of the input. *)
Theorem curate_sources_first_occurrences (sources : list Chunk) :
  curate_sources sources = first_occurrences (source_of_chunk <$> sources)
  ∧ NoDup (curate_sources sources)
  ∧ (∀ s, s ∈ curate_sources sources ↔ s ∈ source_of_chunk <$> sources)
  ∧ (∀ i j a b,
       i < j →
       curate_sources sources !! i = Some a →
       curate_sources sources !! j = Some b →
       (a.(file), a.(page), a.(text)) ≠ (b.(file), b.(page), b.(text))).
Proof.
  assert (curate_sources sources
          = first_occurrences (source_of_chunk <$> sources)) as Heq.
  { induction sources as [|chunk sources IH] using rev_ind; [done|].
    rewrite curate_sources_snoc, IH, dict_fromkeys_keys_first_occurrences.
    rewrite fmap_app. simpl.
    rewrite !first_occurrences_app.
    rewrite (first_occurrences_NoDup (first_occurrences _))
      by apply NoDup_first_occurrences.
    f_equal. apply list_filter_iff. intros y.
    by rewrite elem_of_first_occurrences. }
  split; [done|]. rewrite Heq.
  split; [apply NoDup_first_occurrences|].
  split; [intros s; apply elem_of_first_occurrences|].
  intros i j a b Hij Ha Hb Hsame.
  assert (a = b) as ->.
  { destruct a, b. simpl in Hsame. congruence. }
  pose proof (NoDup_lookup _ i j b (NoDup_first_occurrences _) Ha Hb). lia.
Qed.

Example curate_sources_example :
  let chunk name label body :=
    {| document := {| doc_id := "d"; doc_metadata := page_md name label |};
       chunk_text := body |} in
  let bare body :=
    {| document := {| doc_id := "d"; doc_metadata := None |};
       chunk_text := body |} in
  curate_sources
    [chunk "a.pdf" "1" "alpha"; bare "beta"; chunk "a.pdf" "1" "alpha";
     chunk "a.pdf" "2" "alpha"; bare "beta"]
  = [ {| file := "a.pdf"; page := "1"; text := "alpha" |};
      {| file := "-"; page := "-"; text := "beta" |};
      {| file := "a.pdf"; page := "2"; text := "alpha" |} ].
Proof. reflexivity. Qed.

(** ** Streaming accumulator *)

Lemma accumulate_fragment (full_response : string) (delta : Delta) :
  accumulate full_response delta = full_response +:+ fragment delta.
Proof.
  destruct delta as [s|[t|]|]; simpl; try done.
  - by destruct (decide (t = "")) as [->|].
  - by rewrite string_app_nil_r.
Qed.

Lemma concat_fragments_cons (delta : Delta) (stream : list Delta) :
  concat_fragments (delta :: stream)
  = fragment delta +:+ concat_fragments stream.
Proof. reflexivity. Qed.

Lemma yield_deltas_from_spec (full_response : string) (stream : list Delta) :
  yield_deltas_from full_response stream
  = ((λ i, full_response +:+ concat_fragments (take (S i) stream))
       <$> seq 0 (length stream))
    ++ [full_response +:+ concat_fragments stream].
Proof.
  revert full_response. induction stream as [|delta stream IH];
    intros full_response.
  { simpl. by rewrite string_app_nil_r. }
  cbn [yield_deltas_from length seq fmap list_fmap app].
  rewrite IH, accumulate_fragment. f_equal.
  { simpl take. rewrite concat_fragments_cons. unfold concat_fragments.
    simpl. by rewrite string_app_nil_r. }
  rewrite concat_fragments_cons, string_app_assoc. f_equal.
  rewrite <- fmap_S_seq, <- list_fmap_compose. apply list_fmap_ext.
  intros _ i _. simpl. by rewrite concat_fragments_cons, string_app_assoc.
Qed.

(** C6 (amended): the accumulator emits, for each delta in turn, the
    concatenation of the fragments read so far, and then once more the
    complete text, whatever the last delta is: one value more than there
    are deltas.  The last value is the concatenation of all fragments, and
    the deltas "Hel", "lo", "" give "Hel", "Hello", "Hello", "Hello". *)
Theorem yield_deltas_cumulative (completion_gen : CompletionGen) :
  let stream := response completion_gen in
  yield_deltas completion_gen
  = ((λ i, concat_fragments (take (S i) stream)) <$> seq 0 (length stream))
    ++ [concat_fragments stream]
  ∧ length (yield_deltas completion_gen) = S (length stream)
  ∧ last (yield_deltas completion_gen) = Some (concat_fragments stream)
  ∧ yield_deltas {| response := [DeltaStr "Hel"; DeltaStr "lo"; DeltaStr ""] |}
    = ["Hel"; "Hello"; "Hello"; "Hello"].
Proof.
  intros stream. unfold yield_deltas. fold stream.
  rewrite yield_deltas_from_spec.
  split; [done|]. split.
  { rewrite length_app, length_fmap, length_seq. simpl. lia. }
  split; [|reflexivity].
  by rewrite last_snoc.
Qed.

(** C6, as stated, fails on its own example: three deltas give four
    emitted values, not three. *)
Lemma yield_deltas_example_has_four_values :
  yield_deltas {| response := [DeltaStr "Hel"; DeltaStr "lo"; DeltaStr ""] |}
  ≠ ["Hel"; "Hello"; "Hello"].
Proof. by vm_compute. Qed.

(** ** Running methods *)

Lemma bind_run {A B} (m : M A) (f : A → M B) (w : World) :
  (m ≫= f) w
  = match m w with
    | (Return a, w') => f a w'
    | (Raise e, w') => (Raise e, w')
    end.
Proof. reflexivity. Qed.

Lemma mret_run {A} (a : A) (w : World) : mret (M := M) a w = (Return a, w).
Proof. reflexivity. Qed.

Lemma list_ingested_run (w : World) :
  list_ingested w
  = (Return (store w),
     {| self := self w; calls := calls w ++ [call_list_ingested] |}).
Proof. reflexivity. Qed.

Lemma chat_service_stream_chat_run (messages : list ChatMessage)
    (use_context : bool) (context_filter : option ContextFilter) (w : World) :
  chat_service_stream_chat messages use_context context_filter w
  = (Return (stream_chat (_chat_service (self w)) messages use_context
               context_filter),
     {| self := self w;
        calls := calls w
                 ++ [call_stream_chat messages use_context context_filter] |}).
Proof. reflexivity. Qed.

Lemma for_each_cons {A B} (x : A) (l : list A) (body : B → A → M B)
    (acc : B) (w : World) :
  for_each (x :: l) body acc w
  = match body acc x w with
    | (Return acc', w') => for_each l body acc' w'
    | (Raise e, w') => (Raise e, w')
    end.
Proof. reflexivity. Qed.

(** A loop keeps what each of its iterations keeps. *)
Lemma for_each_preserves {A B} (P : World → Prop) (l : list A)
    (body : B → A → M B) (acc : B) (w : World) :
  (∀ acc x w, P w → P (body acc x w).2) →
  P w → P (for_each l body acc w).2.
Proof.
  intros Hbody. revert acc w. induction l as [|x l IH]; intros acc w Hw.
  - done.
  - rewrite for_each_cons. specialize (Hbody acc x w Hw).
    destruct (body acc x w) as [[acc'|e] w']; simpl in *; [by apply IH|done].
Qed.

Lemma calls_made_app {A} (m : M A) (w : World) (cs : list Call) :
  calls (m w).2 = calls w ++ cs → calls_made m w = cs.
Proof. unfold calls_made. intros ->. by rewrite drop_app_length. Qed.

Lemma getitem_file_name (d : IngestedDoc) (w : World) :
  getitem (doc_metadata d) "file_name" w
  = (match doc_metadata d with
     | None => Raise TypeError
     | Some _ =>
         match file_name_of d with
         | Some n => Return n
         | None => Raise (KeyError "file_name")
         end
     end, w).
Proof.
  unfold getitem, file_name_of. destruct (doc_metadata d) as [m|]; [|done].
  simpl. by destruct (m !! "file_name").
Qed.

(** *** The scan of [_chat] *)

Lemma collect_selected_world (selected : string) (docs_ids : list string)
    (d : IngestedDoc) (w : World) :
  (collect_selected selected docs_ids d w).2 = w.
Proof.
  unfold collect_selected. rewrite bind_run, getitem_file_name.
  destruct (doc_metadata d); [destruct (file_name_of d)|]; done.
Qed.

Lemma selected_docs_ids_world (selected : string) (docs : list IngestedDoc)
    (w : World) :
  (selected_docs_ids selected docs w).2 = w.
Proof.
  unfold selected_docs_ids.
  apply (for_each_preserves (λ w', w' = w)); [|done].
  intros acc d w' ->. apply collect_selected_world.
Qed.

Lemma collect_selected_readable (selected : string)
    (docs : list IngestedDoc) (docs_ids : list string) (w : World) :
  Forall (λ d, is_Some (file_name_of d)) docs →
  for_each docs (collect_selected selected) docs_ids w
  = (Return (docs_ids
             ++ (doc_id <$> filter (λ d, file_name_of d = Some selected) docs)),
     w).
Proof.
  intros Hdocs. revert docs_ids.
  induction Hdocs as [|d docs [n Hn] _ IH]; intros docs_ids.
  { simpl. by rewrite app_nil_r. }
  rewrite for_each_cons. unfold collect_selected at 1.
  rewrite bind_run, getitem_file_name, Hn.
  destruct (doc_metadata d) as [m|] eqn:Hmd;
    [|unfold file_name_of in Hn; by rewrite Hmd in Hn].
  change ((mret (M := M) (if decide (n = selected)
                  then docs_ids ++ [doc_id d] else docs_ids)) w)
    with (Return (if decide (n = selected)
                  then docs_ids ++ [doc_id d] else docs_ids), w).
  cbv beta iota. rewrite IH. f_equal. f_equal.
  destruct (decide (n = selected)) as [->|Hne].
  - rewrite filter_cons_True by done. by rewrite <- app_assoc.
  - rewrite filter_cons_False by congruence. done.
Qed.

(** *** The turn *)

(** What [_chat] does in a world [w], by the outcome of the scan. *)
Lemma _chat_run (message : string) (history : list (string * string))
    (mode : string) (w : World) :
  let s := self w in
  let msgs := all_messages s message history in
  let generate context_filter calls_before :=
    (Return (yield_deltas
               (stream_chat (_chat_service s) msgs true context_filter)),
     {| self := s;
        calls := calls w ++ calls_before
                   ++ [call_stream_chat msgs true context_filter] |}) in
  _chat message history mode w
  = match _selected_filename s with
    | None => generate None []
    | Some selected =>
        let w1 := {| self := s; calls := calls w ++ [call_list_ingested] |} in
        match (selected_docs_ids selected (store w) w1).1 with
        | Return docs_ids =>
            generate (Some {| docs_ids := docs_ids |}) [call_list_ingested]
        | Raise e => (Raise e, w1)
        end
    end.
Proof.
  intros s msgs generate. unfold _chat.
  rewrite bind_run. cbn [get_self]. cbv beta iota.
  destruct (decide ("Query Files" = "Query Files")) as [_|?]; [|done].
  rewrite bind_run. fold s. destruct (_selected_filename s) as [selected|].
  - rewrite bind_run, list_ingested_run. cbv beta iota zeta.
    rewrite bind_run.
    pose proof (selected_docs_ids_world selected (store w)
      {| self := s; calls := calls w ++ [call_list_ingested] |}) as Hw.
    fold s.
    destruct (selected_docs_ids selected (store w) _) as [[ids|e] w'];
      simpl in Hw; subst w'; [|done].
    rewrite mret_run. cbv beta iota.
    rewrite bind_run, chat_service_stream_chat_run, mret_run.
    subst generate. cbn. by rewrite <- app_assoc.
  - rewrite mret_run. cbv beta iota.
    rewrite bind_run, chat_service_stream_chat_run, mret_run.
    subst generate. cbn. done.
Qed.

Lemma _chat_calls (message : string) (history : list (string * string))
    (mode : string) (w : World) :
  let msgs := all_messages (self w) message history in
  calls_made (_chat message history mode) w
  = match _selected_filename (self w) with
    | None => [call_stream_chat msgs true None]
    | Some selected =>
        call_list_ingested ::
        match (selected_docs_ids selected (store w)
                 {| self := self w;
                    calls := calls w ++ [call_list_ingested] |}).1 with
        | Return docs_ids =>
            [call_stream_chat msgs true (Some {| docs_ids := docs_ids |})]
        | Raise _ => []
        end
    end.
Proof.
  intros msgs. apply calls_made_app. rewrite _chat_run. cbv zeta.
  destruct (_selected_filename (self w)) as [selected|]; [|done].
  by destruct (selected_docs_ids selected (store w) _).1.
Qed.

Lemma all_messages_shape (s : PrivateGptUi) (message : string)
    (history : list (string * string)) :
  all_messages s message history
  = (if decide (_system_prompt s = "") then []
     else [ {| content := _system_prompt s; role := SYSTEM |} ])
    ++ build_history history ++ [ {| content := message; role := USER |} ].
Proof. unfold all_messages. by destruct (decide (_system_prompt s = "")). Qed.



(** C10: every generation call of a turn receives the system message (when
    a prompt is set), then the built history of at most twenty messages,
    then the new user message: the new message is the last element for a
    transcript of any length, and the system message is at position 0.  A
    turn that returns has made this call last. *)
Theorem chat_new_message_last (message : string)
    (history : list (string * string)) (mode : string) (w : World) :
  let s := self w in
  let new_message := {| content := message; role := USER |} in
  let system_message := {| content := _system_prompt s; role := SYSTEM |} in
  (∀ msgs use_context context_filter,
     call_stream_chat msgs use_context context_filter
       ∈ calls_made (_chat message history mode) w →
     msgs = (if decide (_system_prompt s = "") then [] else [system_message])
            ++ build_history history ++ [new_message]
     ∧ last msgs = Some new_message
     ∧ length (build_history history) <= 20
     ∧ (_system_prompt s ≠ "" → msgs !! 0 = Some system_message))
  ∧ (∀ out, (_chat message history mode w).1 = Return out →
       ∃ context_filter,
         last (calls_made (_chat message history mode) w)
         = Some (call_stream_chat (all_messages s message history) true
                   context_filter)).
Proof.
  intros s new_message system_message. split.
  - intros msgs uc cf Hcall.
    assert (msgs = all_messages s message history) as ->.
    { rewrite _chat_calls in Hcall. cbv zeta in Hcall. fold s in Hcall.
      destruct (_selected_filename s) as [selected|].
      - apply elem_of_cons in Hcall as [?|Hcall]; [done|].
        destruct (selected_docs_ids selected (store w) _).1 as [ids|e].
        + apply list_elem_of_singleton in Hcall. congruence.
        + by apply not_elem_of_nil in Hcall.
      - apply list_elem_of_singleton in Hcall. congruence. }
    rewrite all_messages_shape. fold system_message new_message.
    split; [done|]. split; [by rewrite app_assoc, last_snoc|].
    split; [rewrite length_build_history; lia|].
    intros Hprompt. by destruct (decide (_system_prompt s = "")).
  - intros out Hout. rewrite _chat_calls. rewrite _chat_run in Hout.
    cbv zeta in *. fold s in Hout |- *.
    destruct (_selected_filename s) as [selected|]; [|by eexists].
    destruct (selected_docs_ids selected (store w) _).1 as [ids|e];
      [by eexists | done].
Qed.

Lemma chat_new_message_last_witness :
  last (calls_made (_chat "What is X?" (demo_history 12) "Query Files")
          (demo_world [] None))
  = Some (call_stream_chat
            (all_messages (demo_ui [] None) "What is X?" (demo_history 12))
            true None)
  ∧ last (all_messages (demo_ui [] None) "What is X?" (demo_history 12))
    = Some {| content := "What is X?"; role := USER |}.
Proof.
  pose proof (chat_new_message_last "What is X?" (demo_history 12)
                "Query Files" (demo_world [] None)) as [Hcalls Hret].
  split; [reflexivity|].
  refine (proj1 (proj2 (Hcalls _ true None _))).
  apply (bool_decide_unpack _). by vm_compute.
Defined.

(** C4 (amended): when a file is selected, every record carries a file
    name and none of them is the selected one, the turn lists the store and
    then issues the generation call with a context filter whose list of
    document identifiers is empty, [ContextFilter(docs_ids=[])]; this is
    not the [None] filter of a turn without selection. *)
Theorem chat_unmatched_selection_empty_filter (message : string)
    (history : list (string * string)) (mode : string) (w : World)
    (selected : string) :
  _selected_filename (self w) = Some selected →
  (∀ d, d ∈ store w → ∃ n, file_name_of d = Some n ∧ n ≠ selected) →
  let msgs := all_messages (self w) message history in
  let context_filter := Some {| docs_ids := [] |} in
  _chat message history mode w
  = (Return (yield_deltas
               (stream_chat (_chat_service (self w)) msgs true
                  context_filter)),
     {| self := self w;
        calls := calls w ++ [call_list_ingested;
                             call_stream_chat msgs true context_filter] |})
  ∧ context_filter ≠ None.
Proof.
  intros Hsel Hdocs msgs context_filter. split; [|done].
  rewrite _chat_run, Hsel. cbv zeta. unfold selected_docs_ids.
  assert (Forall (λ d, is_Some (file_name_of d)) (store w)) as Hreadable.
  { apply Forall_forall. intros d Hd.
    destruct (Hdocs d Hd) as (n & Hn & _). by exists n. }
  rewrite collect_selected_readable by done.
  assert (filter (λ d, file_name_of d = Some selected) (store w) = [])
    as ->; [|done].
  apply elem_of_nil_inv. intros d [Hname Hd]%list_elem_of_filter.
  destruct (Hdocs d Hd) as (n & Hn & Hne). congruence.
Qed.

Lemma chat_unmatched_selection_empty_filter_witness :
  calls_made (_chat "What is X?" [] "Query Files")
    (demo_world [ {| doc_id := "d1"; doc_metadata := file_md "y.pdf" |} ]
       (Some "x.pdf"))
  = [ call_list_ingested;
      call_stream_chat
        [ {| content := "You answer from the documents."; role := SYSTEM |};
          {| content := "What is X?"; role := USER |} ]
        true (Some {| docs_ids := [] |}) ].
Proof.
  apply calls_made_app.
  refine (eq_trans (f_equal (λ r, calls r.2)
    (proj1 (chat_unmatched_selection_empty_filter "What is X?" []
       "Query Files"
       (demo_world [ {| doc_id := "d1"; doc_metadata := file_md "y.pdf" |} ]
          (Some "x.pdf"))
       "x.pdf" eq_refl _))) _).
  - intros d Hd. apply list_elem_of_singleton in Hd as ->.
    exists "y.pdf". split; [reflexivity | done].
  - reflexivity.
Defined.

(** C4, as stated, fails: with "x.pdf" selected and only a record of
    "y.pdf" in the store, no generation call with the [None] filter is
    made; the call carries a filter with an empty list of identifiers. *)
Lemma chat_unmatched_selection_filter_is_not_none :
  let w := demo_world [ {| doc_id := "d1"; doc_metadata := file_md "y.pdf" |} ]
             (Some "x.pdf") in
  _selected_filename (self w) = Some "x.pdf"
  ∧ (∀ d, d ∈ store w → file_name_of d ≠ Some "x.pdf")
  ∧ (∃ msgs, calls_made (_chat "What is X?" [] "Query Files") w
             = [call_list_ingested;
                call_stream_chat msgs true (Some {| docs_ids := [] |})])
  ∧ ¬ (∃ msgs, call_stream_chat msgs true None
               ∈ calls_made (_chat "What is X?" [] "Query Files") w).
Proof.
  cbv zeta. split; [reflexivity|]. split.
  { intros d Hd. apply list_elem_of_singleton in Hd as ->. by vm_compute. }
  split; [eexists; reflexivity|].
  intros [msgs Hin].
  assert (calls_made (_chat "What is X?" [] "Query Files")
            (demo_world
               [ {| doc_id := "d1"; doc_metadata := file_md "y.pdf" |} ]
               (Some "x.pdf"))
          = [call_list_ingested;
             call_stream_chat
               (all_messages (demo_ui [] None) "What is X?" [])
               true (Some {| docs_ids := [] |})]) as Hcalls
    by reflexivity.
  rewrite Hcalls in Hin.
  apply elem_of_cons in Hin as [?|Hin]; [done|].
  apply list_elem_of_singleton in Hin. done.
Qed.

(** C5: the scans that index the metadata with ["file_name"] raise on
    records the listing tolerates.  [_chat] raises [TypeError] on a record
    without metadata and [KeyError] on metadata without a file name;
    [_upload_file] and [_delete_selected_file] raise [KeyError] on
    non-empty metadata without a file name; [_list_ingested_files] returns
    on both and puts the placeholder in the table. *)
Theorem metadata_scans_raise :
  let no_metadata := {| doc_id := "d1"; doc_metadata := None |} in
  let no_file_name :=
    {| doc_id := "d2"; doc_metadata := Some {[ "page_label" := "1" ]} |} in
  (_chat "What is X?" [] "Query Files"
     (demo_world [no_metadata] (Some "a.pdf"))).1 = Raise TypeError
  ∧ (_chat "What is X?" [] "Query Files"
       (demo_world [no_file_name] (Some "a.pdf"))).1
    = Raise (KeyError "file_name")
  ∧ (_upload_file posix_name ["/tmp/a.pdf"]
       (demo_world [no_file_name] None)).1 = Raise (KeyError "file_name")
  ∧ (_delete_selected_file
       (demo_world [no_file_name] (Some "a.pdf"))).1
    = Raise (KeyError "file_name")
  ∧ (_list_ingested_files
       (demo_world [no_metadata; no_file_name] None)).1
    = Return [["[FILE NAME MISSING]"]].
Proof. cbv zeta. repeat split; by vm_compute. Qed.

(** ** Document lifecycle *)

Lemma bind_preserves {A B} (P : World → Prop) (m : M A) (f : A → M B)
    (w : World) :
  (∀ w, P w → P (m w).2) →
  (∀ a w, P w → P (f a w).2) →
  P w → P ((m ≫= f) w).2.
Proof.
  intros Hm Hf Hw. rewrite bind_run. specialize (Hm w Hw).
  destruct (m w) as [[a|e] w']; simpl in *; [by apply Hf | done].
Qed.

Section selection_kept.
Variable selected : option string.

Let P (w : World) : Prop := _selected_filename (self w) = selected.

Lemma list_ingested_keeps_selection w : P w → P (list_ingested w).2.
Proof. done. Qed.

Lemma delete_keeps_selection id w : P w → P (delete id w).2.
Proof. done. Qed.

Lemma _list_ingested_files_keeps_selection w :
  P w → P (_list_ingested_files w).2.
Proof. done. Qed.

Lemma delete_if_selected_keeps_selection u d w :
  P w → P (delete_if_selected u d w).2.
Proof.
  intros Hw. unfold delete_if_selected.
  destruct (truthy_metadata (doc_metadata d)); [|done].
  rewrite bind_run, getitem_file_name.
  destruct (doc_metadata d); [|done].
  destruct (file_name_of d) as [n|]; [|done].
  rewrite bind_run. cbn [get_self]. cbv beta iota.
  by destruct (decide (Some n = _selected_filename (self w))).
Qed.

(** Deleting the selected file leaves the selection as it was. *)
Lemma _delete_selected_file_keeps_selection w :
  P w → P (_delete_selected_file w).2.
Proof.
  unfold _delete_selected_file.
  apply bind_preserves; [apply list_ingested_keeps_selection|].
  intros docs w1. apply bind_preserves.
  { intros w2 Hw2. apply (for_each_preserves P); [|done].
    apply delete_if_selected_keeps_selection. }
  intros _ w2. apply bind_preserves; [|done].
  apply _list_ingested_files_keeps_selection.
Qed.

(** Deleting all files leaves the selection as it was. *)
Lemma _delete_all_files_keeps_selection w :
  P w → P (_delete_all_files w).2.
Proof.
  unfold _delete_all_files.
  apply bind_preserves; [apply list_ingested_keeps_selection|].
  intros docs w1. apply bind_preserves.
  { intros w2 Hw2. apply (for_each_preserves P); [|done].
    intros _ d. apply delete_keeps_selection. }
  intros _ w2. apply bind_preserves; [|done].
  apply _list_ingested_files_keeps_selection.
Qed.
End selection_kept.

(** C3: with "x.pdf" selected and two of three records carrying that name,
    [_delete_selected_file] deletes both records and hands back the label
    "All files" and disabled buttons, yet [_selected_filename] is still
    "x.pdf" afterwards; [_delete_all_files] empties the store and leaves
    the selection as well.  [_deselect_selected_file], which hands back the
    same label and buttons, does clear it. *)
Theorem delete_leaves_selection_set :
  let w := demo_world
             [ {| doc_id := "d1"; doc_metadata := page_md "x.pdf" "1" |};
               {| doc_id := "d2"; doc_metadata := page_md "x.pdf" "2" |};
               {| doc_id := "d3"; doc_metadata := file_md "y.pdf" |} ]
             (Some "x.pdf") in
  (_delete_selected_file w).1
  = Return {| files_table := Some [["y.pdf"]];
              delete_button_interactive := false;
              deselect_button_interactive := false;
              selected_label := "All files" |}
  ∧ store (_delete_selected_file w).2
    = [ {| doc_id := "d3"; doc_metadata := file_md "y.pdf" |} ]
  ∧ _selected_filename (self (_delete_selected_file w).2) = Some "x.pdf"
  ∧ store (_delete_all_files w).2 = []
  ∧ _selected_filename (self (_delete_all_files w).2) = Some "x.pdf"
  ∧ (_deselect_selected_file w).1
    = Return {| files_table := None;
                delete_button_interactive := false;
                deselect_button_interactive := false;
                selected_label := "All files" |}
  ∧ _selected_filename (self (_deselect_selected_file w).2) = None.
Proof. cbv zeta. repeat split; by vm_compute. Qed.

(** *** Upload *)

Lemma collect_replaced_readable (file_names : list string)
    (docs : list IngestedDoc) (ids : list string) (w : World) :
  Forall guarded_readable docs →
  for_each docs (collect_replaced file_names) ids w
  = (Return (ids ++ (doc_id <$> filter (named_in file_names) docs)), w).
Proof.
  intros Hdocs. revert ids.
  induction Hdocs as [|d docs Hd _ IH]; intros ids.
  { simpl. by rewrite app_nil_r. }
  rewrite for_each_cons. unfold collect_replaced at 1.
  unfold guarded_readable in Hd.
  destruct (truthy_metadata (doc_metadata d)) eqn:Htruthy.
  - destruct (Hd eq_refl) as [n Hn].
    rewrite bind_run, getitem_file_name, Hn.
    destruct (doc_metadata d) as [m|] eqn:Hmd; [|done].
    rewrite mret_run, IH. f_equal. f_equal.
    destruct (decide (n ∈ file_names)) as [Hin|Hout].
    + rewrite filter_cons_True by (unfold named_in; by rewrite Hn).
      by rewrite <- app_assoc.
    + rewrite filter_cons_False by (unfold named_in; by rewrite Hn). done.
  - rewrite mret_run, IH. f_equal. f_equal. f_equal.
    rewrite filter_cons_False; [done|].
    unfold named_in, file_name_of, truthy_metadata in *.
    destruct (doc_metadata d) as [m|]; [|tauto].
    apply negb_false_iff, bool_decide_eq_true in Htruthy. subst m.
    simpl. rewrite lookup_empty. tauto.
Qed.

Lemma collect_replaced_unreadable (file_names : list string)
    (docs : list IngestedDoc) (ids : list string) (w : World) :
  ¬ Forall guarded_readable docs →
  for_each docs (collect_replaced file_names) ids w
  = (Raise (KeyError "file_name"), w).
Proof.
  revert ids. induction docs as [|d docs IH]; intros ids Hbad.
  { destruct Hbad. constructor. }
  rewrite for_each_cons. unfold collect_replaced at 1.
  destruct (decide (guarded_readable d)) as [Hd|Hd].
  - assert (¬ Forall guarded_readable docs) as Hrest.
    { intros Hrest. apply Hbad. by constructor. }
    unfold guarded_readable in Hd.
    destruct (truthy_metadata (doc_metadata d)) eqn:Htruthy.
    + destruct (Hd eq_refl) as [n Hn].
      rewrite bind_run, getitem_file_name, Hn.
      destruct (doc_metadata d) as [m|] eqn:Hmd; [|done].
      rewrite mret_run. by apply IH.
    + rewrite mret_run. by apply IH.
  - unfold guarded_readable in Hd.
    destruct (truthy_metadata (doc_metadata d)) eqn:Htruthy.
    + rewrite bind_run, getitem_file_name.
      destruct (doc_metadata d) as [m|] eqn:Hmd; [|done].
      destruct (file_name_of d) as [n|] eqn:Hn; [|done].
      destruct Hd. intros _. by exists n.
    + destruct Hd. intros ?. done.
Qed.

Lemma delete_run (id : string) (w : World) :
  ∃ w', delete id w = (Return tt, w')
    ∧ store w' = filter (λ d, doc_id d ≠ id) (store w)
    ∧ calls w' = calls w ++ [call_delete id]
    ∧ pipeline (_ingest_service (self w'))
      = pipeline (_ingest_service (self w)).
Proof.
  exists (delete id w).2. split; [reflexivity|]. done.
Qed.

(** Deleting a list of identifiers one by one. *)
Lemma delete_each_run (ids : list string) (w : World) :
  ∃ w', for_each ids (λ _ id, delete id) tt w = (Return tt, w')
    ∧ store w' = filter (λ d, doc_id d ∉ ids) (store w)
    ∧ calls w' = calls w ++ (call_delete <$> ids)
    ∧ pipeline (_ingest_service (self w'))
      = pipeline (_ingest_service (self w)).
Proof.
  revert w. induction ids as [|id ids IH]; intros w.
  - exists w. split; [done|]. split; [|by rewrite app_nil_r].
    symmetry. induction (store w) as [|d docs IHd]; [done|].
    rewrite filter_cons_True by apply not_elem_of_nil. by rewrite IHd.
  - rewrite for_each_cons.
    destruct (delete_run id w) as (w1 & -> & Hstore1 & Hcalls1 & Hpipe1).
    destruct (IH w1) as (w' & -> & Hstore & Hcalls & Hpipe).
    exists w'. split; [done|]. split; [|split].
    + rewrite Hstore, Hstore1, list_filter_filter. apply list_filter_iff.
      intros d. rewrite not_elem_of_cons. tauto.
    + rewrite Hcalls, Hcalls1, <- app_assoc. done.
    + congruence.
Qed.

Lemma new_records_pipeline (svc svc' : IngestService) :
  pipeline svc = pipeline svc' → new_records svc = new_records svc'.
Proof. unfold new_records. by intros ->. Qed.

Lemma bulk_ingest_run (files : list (string * string)) (w : World) :
  ∃ w', bulk_ingest files w
        = (Return (concat (new_records (_ingest_service (self w)) <$> files)),
           w')
    ∧ store w'
      = store w ++ concat (new_records (_ingest_service (self w)) <$> files)
    ∧ calls w' = calls w ++ [call_bulk_ingest files].
Proof.
  exists (bulk_ingest files w).2. split; [reflexivity|]. done.
Qed.

Lemma new_records_file_name (svc : IngestService) (name path : string)
    (d : IngestedDoc) :
  d ∈ new_records svc (name, path) → file_name_of d = Some name.
Proof.
  unfold new_records. intros ([id extra] & -> & _)%list_elem_of_fmap.
  unfold file_name_of. simpl. apply lookup_insert_eq.
Qed.

Lemma elem_of_concat {A} (x : A) (ls : list (list A)) :
  x ∈ concat ls ↔ ∃ l, x ∈ l ∧ l ∈ ls.
Proof.
  induction ls as [|l' ls IH]; simpl.
  - split; [by intros ?%not_elem_of_nil|].
    by intros (l & _ & ?%not_elem_of_nil).
  - rewrite elem_of_app, IH. split.
    + intros [Hx|(l & Hx & Hl)].
      * exists l'. split; [done | apply elem_of_cons; by left].
      * exists l. split; [done | apply elem_of_cons; by right].
    + intros (l & Hx & [->|Hl]%elem_of_cons); [by left|].
      right. by exists l.
Qed.

Lemma _upload_file_readable (path_name : string → string)
    (files : list string) (w : World) :
  let names := path_name <$> files in
  let pairs := (λ path, (path_name path, path)) <$> files in
  let ids := doc_id <$> filter (named_in names) (store w) in
  Forall guarded_readable (store w) →
  ∃ w', _upload_file path_name files w = (Return tt, w')
    ∧ store w'
      = filter (λ d, doc_id d ∉ ids) (store w)
        ++ concat (new_records (_ingest_service (self w)) <$> pairs)
    ∧ calls w'
      = calls w ++ [call_list_ingested] ++ (call_delete <$> ids)
          ++ [call_bulk_ingest pairs].
Proof.
  intros names pairs ids Hdocs. unfold _upload_file. cbv zeta.
  rewrite bind_run, list_ingested_run. cbv beta iota.
  rewrite bind_run. unfold doc_ids_to_delete.
  rewrite collect_replaced_readable by done.
  rewrite app_nil_l. fold names ids pairs. cbv beta iota.
  set (w1 := {| self := self w; calls := calls w ++ [call_list_ingested] |}).
  assert (∃ w2,
    (if decide (0 < length ids)
     then for_each ids (λ _ id, delete id) tt else mret tt) w1
    = (Return tt, w2)
    ∧ store w2 = filter (λ d, doc_id d ∉ ids) (store w)
    ∧ calls w2 = calls w1 ++ (call_delete <$> ids)
    ∧ pipeline (_ingest_service (self w2))
      = pipeline (_ingest_service (self w)))
    as (w2 & Hrun & Hstore & Hcalls & Hpipe).
  { destruct (decide (0 < length ids)) as [_|Hlen].
    - apply (delete_each_run ids w1).
    - destruct ids; [|simpl in Hlen; lia]. apply (delete_each_run [] w1). }
  rewrite bind_run, Hrun. cbv beta iota.
  rewrite bind_run.
  destruct (bulk_ingest_run pairs w2) as (w3 & -> & Hstore3 & Hcalls3).
  cbv beta iota. rewrite mret_run.
  exists w3. split; [done|]. split.
  - rewrite Hstore3, Hstore. fold pairs. f_equal. f_equal.
    by rewrite (new_records_pipeline _ _ Hpipe).
  - rewrite Hcalls3, Hcalls. subst w1. simpl. fold pairs.
    by rewrite <- !app_assoc.
Qed.

Lemma _upload_file_unreadable (path_name : string → string)
    (files : list string) (w : World) :
  ¬ Forall guarded_readable (store w) →
  _upload_file path_name files w
  = (Raise (KeyError "file_name"),
     {| self := self w; calls := calls w ++ [call_list_ingested] |}).
Proof.
  intros Hdocs. unfold _upload_file. cbv zeta.
  rewrite bind_run, list_ingested_run. cbv beta iota.
  rewrite bind_run. unfold doc_ids_to_delete.
  by rewrite collect_replaced_unreadable.
Qed.

(** X19: an upload lists the store, deletes every record that carries the
    name of one of the uploaded files, and only then issues the single bulk
    ingestion; afterwards the records under each uploaded name are exactly
    the newly ingested ones.  This is what an upload does when every
    record with non-empty metadata has a file name; otherwise the scan
    raises before any deletion or ingestion and the store is as before. *)
Theorem upload_replaces_same_named (path_name : string → string)
    (files : list string) (w : World) :
  let names := path_name <$> files in
  let pairs := (λ path, (path_name path, path)) <$> files in
  let replaced := filter (named_in names) (store w) in
  let fresh := concat (new_records (_ingest_service (self w)) <$> pairs) in
  let after := (_upload_file path_name files w).2 in
  (Forall guarded_readable (store w) →
     (_upload_file path_name files w).1 = Return tt
     ∧ calls_made (_upload_file path_name files) w
       = [call_list_ingested] ++ (call_delete <$> (doc_id <$> replaced))
           ++ [call_bulk_ingest pairs]
     ∧ (∀ d, d ∈ store w → named_in names d →
             call_delete (doc_id d)
               ∈ calls_made (_upload_file path_name files) w)
     ∧ store after
       = filter (λ d, doc_id d ∉ doc_id <$> replaced) (store w) ++ fresh
     ∧ (∀ n, n ∈ names →
             filter (λ d, file_name_of d = Some n) (store after)
             = filter (λ d, file_name_of d = Some n) fresh)
     ∧ (∀ d, d ∈ fresh → named_in names d))
  ∧ (¬ Forall guarded_readable (store w) →
     (_upload_file path_name files w).1 = Raise (KeyError "file_name")
     ∧ calls_made (_upload_file path_name files) w = [call_list_ingested]
     ∧ store after = store w).
Proof.
  intros names pairs replaced fresh after. split.
  - intros Hdocs.
    destruct (_upload_file_readable path_name files w Hdocs)
      as (w' & Hrun & Hstore & Hcalls).
    fold names pairs replaced fresh in Hstore, Hcalls.
    assert (calls_made (_upload_file path_name files) w
            = [call_list_ingested] ++ (call_delete <$> (doc_id <$> replaced))
                ++ [call_bulk_ingest pairs]) as Hmade.
    { apply calls_made_app. by rewrite Hrun. }
    subst after. rewrite Hmade, Hrun. cbn [fst snd].
    split; [done|]. split; [done|]. split; [|split; [done|split]].
    + intros d Hd Hnamed. apply elem_of_cons. right.
      apply elem_of_app. left. do 2 apply list_elem_of_fmap_2.
      by apply list_elem_of_filter.
    + intros n Hn. rewrite Hstore, filter_app.
      rewrite <- (app_nil_l (filter _ fresh)) at 2. f_equal.
      apply elem_of_nil_inv. intros d [Hname Hd]%list_elem_of_filter.
      apply list_elem_of_filter in Hd as [Hkept Hd]. apply Hkept.
      apply list_elem_of_fmap_2, list_elem_of_filter. split; [|done].
      unfold named_in. by rewrite Hname.
    + intros d Hd. unfold fresh in Hd.
      apply elem_of_concat in Hd as (recs & Hd & Hrecs).
      apply list_elem_of_fmap in Hrecs as ([name path] & -> & Hpair).
      apply new_records_file_name in Hd. unfold named_in. rewrite Hd.
      apply list_elem_of_fmap in Hpair as (file & [= -> ->] & Hfile).
      by apply list_elem_of_fmap_2.
  - intros Hdocs. subst after.
    rewrite (_upload_file_unreadable path_name files w Hdocs).
    split; [done|]. split; [|done].
    apply calls_made_app. by rewrite _upload_file_unreadable.
Qed.

Lemma upload_replaces_same_named_witness :
  let old := [ {| doc_id := "d1"; doc_metadata := file_md "x.pdf" |};
               {| doc_id := "d2"; doc_metadata := page_md "y.pdf" "1" |};
               {| doc_id := "d3"; doc_metadata := None |} ] in
  let w := demo_world old (Some "x.pdf") in
  Forall guarded_readable (store w)
  ∧ calls_made (_upload_file posix_name ["/tmp/a/x.pdf"]) w
    = [ call_list_ingested; call_delete "d1";
        call_bulk_ingest [("x.pdf", "/tmp/a/x.pdf")] ]
  ∧ store (_upload_file posix_name ["/tmp/a/x.pdf"] w).2
    = [ {| doc_id := "d2"; doc_metadata := page_md "y.pdf" "1" |};
        {| doc_id := "d3"; doc_metadata := None |};
        {| doc_id := "new:/tmp/a/x.pdf"; doc_metadata := file_md "x.pdf" |} ].
Proof.
  intros old w.
  assert (Forall guarded_readable (store w)) as Hdocs.
  { apply (bool_decide_unpack _). by vm_compute. }
  split; [exact Hdocs|].
  destruct (proj1 (upload_replaces_same_named posix_name ["/tmp/a/x.pdf"] w)
              Hdocs) as (_ & Hcalls & _ & Hstore & _).
  split.
  - exact (eq_trans Hcalls eq_refl).
  - exact (eq_trans Hstore eq_refl).
Defined.

Example posix_name_examples :
  posix_name "/tmp/a/x.pdf" = "x.pdf"
  ∧ posix_name "/tmp/a/x.pdf/" = "x.pdf"
  ∧ posix_name "a//b/." = "b"
  ∧ posix_name "x.pdf" = "x.pdf"
  ∧ posix_name "/" = ""
  ∧ posix_name "" = "".
Proof. repeat split; reflexivity. Qed.

(** C7: an upload does not replace the records of the uploaded name in
    every store.  With a record of "x.pdf" and a record whose metadata has
    a page label but no file name, uploading "x.pdf" raises [KeyError] in
    the scan for records to replace: the store has been listed, no record
    is deleted, nothing is ingested, and the old record is still the one
    record under "x.pdf". *)
Theorem upload_raises_before_replacing :
  let old := {| doc_id := "d1"; doc_metadata := file_md "x.pdf" |} in
  let no_file_name :=
    {| doc_id := "d2"; doc_metadata := Some {[ "page_label" := "1" ]} |} in
  let w := demo_world [old; no_file_name] None in
  posix_name "/tmp/a/x.pdf" = "x.pdf"
  ∧ (_upload_file posix_name ["/tmp/a/x.pdf"] w).1
    = Raise (KeyError "file_name")
  ∧ calls_made (_upload_file posix_name ["/tmp/a/x.pdf"]) w
    = [call_list_ingested]
  ∧ store (_upload_file posix_name ["/tmp/a/x.pdf"] w).2
    = [old; no_file_name]
  ∧ filter (λ d, file_name_of d = Some "x.pdf")
      (store (_upload_file posix_name ["/tmp/a/x.pdf"] w).2)
    = [old].
Proof. cbv zeta. repeat split; by vm_compute. Qed.

(** * Further properties *)

(** ** History builder *)

Lemma take_history_messages (n : nat) (history : list (string * string)) :
  take (2 * n) (history_messages history) = history_messages (take n history).
Proof.
  revert history. induction n as [|n IH]; intros history; [done|].
  destruct history as [|p history]; [done|].
  replace (2 * S n) with (S (S (2 * n))) by lia.
  rewrite history_messages_cons. simpl take.
  rewrite history_messages_cons. simpl. by rewrite IH.
Qed.

(** X1: the built history is the flattened first ten pairs of the
    transcript, so two transcripts that agree on their first ten pairs
    give the same history: nothing of an eleventh or later pair is ever
    part of it. *)
Theorem build_history_first_ten (history1 history2 : list (string * string)) :
  take 10 history1 = take 10 history2 →
  build_history history1 = history_messages (take 10 history1)
  ∧ build_history history1 = build_history history2.
Proof.
  intros Hsame. unfold build_history.
  rewrite !(take_history_messages 10). by rewrite Hsame.
Qed.

Lemma build_history_first_ten_witness :
  take 10 (demo_history 10) = take 10 (demo_history 12)
  ∧ build_history (demo_history 10) = build_history (demo_history 12).
Proof.
  split; [reflexivity|].
  apply (build_history_first_ten (demo_history 10) (demo_history 12)).
  reflexivity.
Defined.

Lemma history_messages_lookup_inv (history : list (string * string))
    (i : nat) (m : ChatMessage) :
  history_messages history !! i = Some m →
  ∃ k u a, history !! k = Some (u, a)
    ∧ ((i = 2 * k ∧ m = {| content := u; role := USER |})
       ∨ (i = 2 * k + 1
          ∧ m = {| content := strip_sources a; role := ASSISTANT |})).
Proof.
  revert i. induction history as [|[u a] history IH]; intros i Hi; [done|].
  rewrite history_messages_cons in Hi.
  destruct i as [|[|i]].
  - injection Hi as <-. exists 0, u, a. split; [done|]. by left.
  - injection Hi as <-. exists 0, u, a. split; [done|]. by right.
  - simpl in Hi. destruct (IH i Hi) as (k & u' & a' & Hk & Hcase).
    exists (S k), u', a'. split; [done|].
    destruct Hcase as [[-> ->]|[-> ->]]; [left|right]; (split; [lia|done]).
Qed.

(** X2: the built history has [min 20 (2 n)] messages for a transcript of
    [n] pairs, and its messages alternate: a user message at every even
    position, an assistant message at every odd one, never a system
    message. *)
Theorem build_history_alternates (history : list (string * string)) :
  length (build_history history) = 20 `min` (2 * length history)
  ∧ ∀ i m, build_history history !! i = Some m →
      role m = (if Nat.even i then USER else ASSISTANT) ∧ role m ≠ SYSTEM.
Proof.
  split; [apply length_build_history|].
  intros i m Hm. unfold build_history in Hm.
  apply lookup_take_Some in Hm as [Hm _].
  apply history_messages_lookup_inv in Hm
    as (k & u & a & _ & [[-> ->]|[-> ->]]).
  - replace (2 * k) with (k * 2) by lia.
    rewrite Nat.even_mul, Nat.even_2. by rewrite orb_true_r.
  - replace (2 * k + 1) with (S (k * 2)) by lia.
    rewrite Nat.even_succ, <- Nat.negb_even, Nat.even_mul.
    simpl. by rewrite orb_true_r.
Qed.

Lemma build_history_alternates_witness :
  build_history (demo_history 12) !! 7
  = Some {| content := "r3"; role := ASSISTANT |}
  ∧ role {| content := "r3"; role := ASSISTANT |} = ASSISTANT.
Proof.
  split; [reflexivity|].
  refine (proj1 (proj2 (build_history_alternates (demo_history 12)) 7 _ _)).
  reflexivity.
Defined.

(** ** Streaming accumulator *)

Lemma yield_deltas_from_hd (full_response : string) (stream : list Delta) :
  ∃ frag, yield_deltas_from full_response stream !! 0
          = Some (full_response +:+ frag).
Proof.
  destruct stream as [|delta stream]; simpl.
  - exists "". by rewrite string_app_nil_r.
  - exists (fragment delta). by rewrite accumulate_fragment.
Qed.

Lemma yield_deltas_from_grows (full_response : string) (stream : list Delta)
    (i : nat) (a b : string) :
  yield_deltas_from full_response stream !! i = Some a →
  yield_deltas_from full_response stream !! S i = Some b →
  ∃ frag, b = a +:+ frag.
Proof.
  revert full_response i. induction stream as [|delta stream IH];
    intros full_response i Ha Hb; [done|].
  cbn [yield_deltas_from] in Ha, Hb. destruct i as [|i].
  - injection Ha as <-. simpl in Hb.
    destruct (yield_deltas_from_hd (accumulate full_response delta) stream)
      as [frag Hhd].
    exists frag. congruence.
  - simpl in Ha, Hb. by eapply IH.
Qed.

(** X3: the accumulator always emits at least one value (the empty text
    alone for an empty stream), and its output only grows: every emitted
    value is the one before it with a fragment appended. *)
Theorem yield_deltas_grows (completion_gen : CompletionGen) :
  yield_deltas completion_gen ≠ []
  ∧ (response completion_gen = [] → yield_deltas completion_gen = [""])
  ∧ ∀ i a b,
      yield_deltas completion_gen !! i = Some a →
      yield_deltas completion_gen !! S i = Some b →
      ∃ frag, b = a +:+ frag.
Proof.
  unfold yield_deltas. split; [|split].
  - by destruct (response completion_gen).
  - by intros ->.
  - intros i a b. apply yield_deltas_from_grows.
Qed.

Lemma yield_deltas_grows_witness :
  ∃ frag, "Hello" = "Hel" +:+ frag.
Proof.
  refine (proj2 (proj2 (yield_deltas_grows
    {| response := [DeltaStr "Hel"; DeltaChatResponse (Some "lo")] |}))
    0 "Hel" "Hello" _ _); reflexivity.
Defined.

(** ** Source curator *)

Lemma curate_sources_eq (sources : list Chunk) :
  curate_sources sources = first_occurrences (source_of_chunk <$> sources).
Proof.
  induction sources as [|chunk sources IH] using rev_ind; [done|].
  rewrite curate_sources_snoc, IH, dict_fromkeys_keys_first_occurrences.
  rewrite fmap_app. simpl. rewrite !first_occurrences_app.
  rewrite (first_occurrences_NoDup (first_occurrences _))
    by apply NoDup_first_occurrences.
  f_equal. apply list_filter_iff. intros y.
  by rewrite elem_of_first_occurrences.
Qed.

Lemma length_first_occurrences {A} `{EqDecision A} (l : list A) :
  length (first_occurrences l) <= length l.
Proof.
  induction l as [|x l IH]; simpl; [done|].
  pose proof (length_filter (λ y, y ≠ x) (first_occurrences l)). lia.
Qed.

(** X4: curating is stable under more input: the curated list of a
    sequence of chunks is a prefix of the curated list of any extension of
    the sequence, and it is never longer than the sequence; chunks that are
    already free of duplicates are all kept, in order. *)
Theorem curate_sources_stable (sources more : list Chunk) :
  curate_sources sources `prefix_of` curate_sources (sources ++ more)
  ∧ length (curate_sources sources) <= length sources
  ∧ (NoDup (source_of_chunk <$> sources) →
     curate_sources sources = source_of_chunk <$> sources).
Proof.
  rewrite !curate_sources_eq, fmap_app, first_occurrences_app.
  split; [by eexists|]. split.
  - etrans; [apply length_first_occurrences|]. by rewrite length_fmap.
  - apply first_occurrences_NoDup.
Qed.

(** ** Splitting and joining *)

Lemma split_go_nonempty (sep : string) (s : string) (k : nat) (cur : string) :
  split_go sep k cur s ≠ [].
Proof.
  revert k cur. induction s as [|c s IH]; intros k cur.
  - by destruct k.
  - destruct k as [|k]; [|apply IH].
    cbn [split_go]. destruct (String.prefix sep (String c s)); [done|].
    apply IH.
Qed.

Lemma str_join_cons (sep p : string) (ps : list string) :
  ps ≠ [] → str_join sep (p :: ps) = p +:+ sep +:+ str_join sep ps.
Proof. by destruct ps. Qed.

Lemma split_go_join (sep : string) (s : string) (k : nat)
    (cur pre rest : string) :
  sep ≠ "" → s = pre +:+ rest → String.length pre = k →
  str_join sep (split_go sep k cur s) = cur +:+ rest.
Proof.
  intros Hsep. revert k cur pre rest.
  induction s as [|c s IH]; intros k cur pre rest Hs Hk.
  - destruct pre; [|done]. rewrite string_app_nil_l in Hs. subst rest.
    simpl in Hk. subst k. simpl. by rewrite string_app_nil_r.
  - destruct k as [|k].
    + destruct pre; [|done]. rewrite string_app_nil_l in Hs. subst rest.
      cbn [split_go].
      destruct (String.prefix sep (String c s)) eqn:Hpre.
      * apply prefix_app in Hpre as [post Hpost].
        destruct sep as [|c0 sep']; [done|].
        rewrite string_app_cons in Hpost. injection Hpost as <- Hs'.
        rewrite str_join_cons by apply split_go_nonempty.
        rewrite (IH (String.length (String c sep') - 1) "" sep' post Hs')
          by (simpl; lia).
        rewrite string_app_nil_l, Hs', string_app_cons. done.
      * rewrite (IH 0 (cur +:+ String c "") "" s) by done.
        by rewrite string_app_assoc.
    + destruct pre as [|c' pre]; [done|].
      rewrite string_app_cons in Hs. injection Hs as <- Hs.
      simpl in Hk. cbn [split_go]. apply (IH k cur pre rest); [done|lia].
Qed.

Lemma split_go_no_separator (sep : string) (s cur : string) :
  ¬ contains sep s → split_go sep 0 cur s = [cur +:+ s].
Proof.
  revert cur. induction s as [|c s IH]; intros cur Hnone.
  - simpl. by rewrite string_app_nil_r.
  - cbn [split_go]. destruct (String.prefix sep (String c s)) eqn:Hpre.
    + destruct Hnone. exists 0. by apply occurs_at_0.
    + rewrite IH, string_app_assoc; [done|].
      intros [j Hocc]. apply Hnone. exists (S j). by apply occurs_at_S.
Qed.

(** X5: for a separator that is not empty, joining the fields of a split
    with the separator gives the text back; a split is never the empty
    list, and a text without the separator is its only field. *)
Theorem str_split_join (sep s : string) :
  sep ≠ "" →
  str_join sep (str_split sep s) = s
  ∧ str_split sep s ≠ []
  ∧ (¬ contains sep s → str_split sep s = [s]).
Proof.
  intros Hsep. unfold str_split. split; [|split].
  - by rewrite (split_go_join sep s 0 "" "" s).
  - apply split_go_nonempty.
  - intros Hnone. by rewrite split_go_no_separator.
Qed.

Lemma str_split_join_witness :
  str_join SOURCES_SEPARATOR
    (str_split SOURCES_SEPARATOR
       ("Hello world" +:+ SOURCES_SEPARATOR +:+ "1. doc.pdf"))
  = "Hello world" +:+ SOURCES_SEPARATOR +:+ "1. doc.pdf".
Proof.
  apply (str_split_join SOURCES_SEPARATOR
           ("Hello world" +:+ SOURCES_SEPARATOR +:+ "1. doc.pdf")).
  done.
Defined.

(** X6: stripping the sources keeps a prefix of the stored text, and
    stripping again changes nothing. *)
Theorem strip_sources_idempotent (assistant_text : string) :
  (∃ rest, assistant_text = strip_sources assistant_text +:+ rest)
  ∧ strip_sources (strip_sources assistant_text)
    = strip_sources assistant_text.
Proof.
  split.
  - destruct (stripped_spec assistant_text) as [(rest & Heq & _)|[_ Heq]].
    + by exists (SOURCES_SEPARATOR +:+ rest).
    + exists "". by rewrite Heq, string_app_nil_r.
  - destruct (stripped_spec (strip_sources assistant_text))
      as [(rest & Heq & _)|[_ Heq]]; [|done].
    destruct (stripped_no_separator assistant_text).
    exists (String.length (strip_sources (strip_sources assistant_text))).
    by eexists _, rest.
Qed.

(** ** Turns *)

Lemma not_Forall_first {A} (P : A → Prop) `{∀ x, Decision (P x)}
    (l : list A) :
  ¬ Forall P l → ∃ l1 x l2, l = l1 ++ x :: l2 ∧ Forall P l1 ∧ ¬ P x.
Proof.
  induction l as [|x l IH]; intros Hl.
  - destruct Hl. constructor.
  - destruct (decide (P x)) as [Hx|Hx].
    + destruct IH as (l1 & y & l2 & -> & Hl1 & Hy).
      { intros Hrest. apply Hl. by constructor. }
      exists (x :: l1), y, l2. split; [done|]. split; [by constructor|done].
    + exists [], x, l. split; [done|]. split; [constructor|done].
Qed.

Lemma collect_selected_unreadable (selected : string)
    (docs1 : list IngestedDoc) (d : IngestedDoc) (docs2 : list IngestedDoc)
    (docs_ids : list string) (w : World) :
  Forall (λ d, is_Some (file_name_of d)) docs1 →
  file_name_of d = None →
  for_each (docs1 ++ d :: docs2) (collect_selected selected) docs_ids w
  = (Raise (match doc_metadata d with
            | None => TypeError
            | Some _ => KeyError "file_name"
            end), w).
Proof.
  intros Hdocs1 Hd. revert docs_ids.
  induction Hdocs1 as [|d1 docs1 [n Hn] _ IH]; intros docs_ids.
  - simpl app. rewrite for_each_cons. unfold collect_selected at 1.
    rewrite bind_run, getitem_file_name, Hd.
    by destruct (doc_metadata d).
  - simpl app. rewrite for_each_cons. unfold collect_selected at 1.
    rewrite bind_run, getitem_file_name, Hn.
    destruct (doc_metadata d1) as [m|] eqn:Hmd;
      [|unfold file_name_of in Hn; by rewrite Hmd in Hn].
    rewrite mret_run. apply IH.
Qed.

(** X7: with a file selected and a file name on every record, the turn
    lists the store once and then issues one generation call with context,
    filtered to the identifiers of the records that carry the selected
    name, in store order; it yields the accumulated response of that
    call. *)
Theorem chat_selected_filter (message : string)
    (history : list (string * string)) (mode : string) (w : World)
    (selected : string) :
  _selected_filename (self w) = Some selected →
  Forall (λ d, is_Some (file_name_of d)) (store w) →
  let msgs := all_messages (self w) message history in
  let context_filter :=
    Some {| docs_ids :=
              doc_id <$> filter (λ d, file_name_of d = Some selected)
                           (store w) |} in
  _chat message history mode w
  = (Return (yield_deltas
               (stream_chat (_chat_service (self w)) msgs true
                  context_filter)),
     {| self := self w;
        calls := calls w ++ [call_list_ingested;
                             call_stream_chat msgs true context_filter] |}).
Proof.
  intros Hsel Hdocs msgs context_filter.
  rewrite _chat_run, Hsel. cbv zeta. unfold selected_docs_ids.
  by rewrite collect_selected_readable.
Qed.

Lemma chat_selected_filter_witness :
  calls_made (_chat "What is X?" [] "Search Files")
    (demo_world
       [ {| doc_id := "d1"; doc_metadata := page_md "x.pdf" "1" |};
         {| doc_id := "d2"; doc_metadata := file_md "y.pdf" |};
         {| doc_id := "d3"; doc_metadata := page_md "x.pdf" "2" |} ]
       (Some "x.pdf"))
  = [ call_list_ingested;
      call_stream_chat
        [ {| content := "You answer from the documents."; role := SYSTEM |};
          {| content := "What is X?"; role := USER |} ]
        true (Some {| docs_ids := ["d1"; "d3"] |}) ].
Proof.
  apply calls_made_app.
  refine (eq_trans (f_equal (λ r, calls r.2)
    (chat_selected_filter "What is X?" [] "Search Files"
       (demo_world
          [ {| doc_id := "d1"; doc_metadata := page_md "x.pdf" "1" |};
            {| doc_id := "d2"; doc_metadata := file_md "y.pdf" |};
            {| doc_id := "d3"; doc_metadata := page_md "x.pdf" "2" |} ]
          (Some "x.pdf"))
       "x.pdf" eq_refl _)) _).
  - repeat constructor; by eexists.
  - reflexivity.
Defined.

(** X8: with a file selected, the first record of the store without a file
    name stops the turn: [TypeError] when the record has no metadata,
    [KeyError] when its metadata has no file name.  The store has been
    listed, no generation call has been made and nothing is yielded. *)
Theorem chat_first_unreadable_raises (message : string)
    (history : list (string * string)) (mode : string) (w : World)
    (selected : string) (docs1 : list IngestedDoc) (d : IngestedDoc)
    (docs2 : list IngestedDoc) :
  _selected_filename (self w) = Some selected →
  store w = docs1 ++ d :: docs2 →
  Forall (λ d, is_Some (file_name_of d)) docs1 →
  file_name_of d = None →
  _chat message history mode w
  = (Raise (match doc_metadata d with
            | None => TypeError
            | Some _ => KeyError "file_name"
            end),
     {| self := self w; calls := calls w ++ [call_list_ingested] |}).
Proof.
  intros Hsel Hstore Hdocs1 Hd.
  rewrite _chat_run, Hsel, Hstore. cbv zeta. unfold selected_docs_ids.
  by rewrite collect_selected_unreadable.
Qed.

Lemma chat_first_unreadable_raises_witness :
  _chat "What is X?" [] "Query Files"
    (demo_world
       [ {| doc_id := "d1"; doc_metadata := file_md "x.pdf" |};
         {| doc_id := "d2"; doc_metadata := Some ∅ |};
         {| doc_id := "d3"; doc_metadata := None |} ]
       (Some "x.pdf"))
  = (Raise (KeyError "file_name"),
     {| self := demo_ui
                  [ {| doc_id := "d1"; doc_metadata := file_md "x.pdf" |};
                    {| doc_id := "d2"; doc_metadata := Some ∅ |};
                    {| doc_id := "d3"; doc_metadata := None |} ]
                  (Some "x.pdf");
        calls := [call_list_ingested] |}).
Proof.
  apply (chat_first_unreadable_raises "What is X?" [] "Query Files"
           (demo_world
              [ {| doc_id := "d1"; doc_metadata := file_md "x.pdf" |};
                {| doc_id := "d2"; doc_metadata := Some ∅ |};
                {| doc_id := "d3"; doc_metadata := None |} ]
              (Some "x.pdf"))
           "x.pdf"
           [ {| doc_id := "d1"; doc_metadata := file_md "x.pdf" |} ]
           {| doc_id := "d2"; doc_metadata := Some ∅ |}
           [ {| doc_id := "d3"; doc_metadata := None |} ]).
  - reflexivity.
  - reflexivity.
  - repeat constructor. by eexists.
  - reflexivity.
Defined.

(** X9: a turn returns exactly when no file is selected or every record of
    the store carries a file name; whether it returns or raises, it leaves
    [self] (selection, prompt, mode, services and store) as it was. *)
Theorem chat_returns_iff (message : string)
    (history : list (string * string)) (mode : string) (w : World) :
  ((∃ out, (_chat message history mode w).1 = Return out)
   ↔ _selected_filename (self w) = None
     ∨ Forall (λ d, is_Some (file_name_of d)) (store w))
  ∧ self (_chat message history mode w).2 = self w.
Proof.
  split.
  - destruct (_selected_filename (self w)) as [selected|] eqn:Hsel.
    + destruct (decide (Forall (λ d, is_Some (file_name_of d)) (store w)))
        as [Hdocs|Hdocs].
      * rewrite _chat_run, Hsel. cbv zeta. unfold selected_docs_ids.
        rewrite collect_selected_readable by done.
        split; [by right | by eexists].
      * destruct (not_Forall_first _ _ Hdocs)
          as (docs1 & d & docs2 & Hstore & Hdocs1 & Hd).
        assert (file_name_of d = None) as Hname.
        { destruct (file_name_of d) eqn:Hname; [|done].
          destruct Hd. by eexists. }
        rewrite _chat_run, Hsel. cbv zeta. unfold selected_docs_ids.
        rewrite Hstore in Hdocs |- *.
        rewrite collect_selected_unreadable by done.
        split; [by intros [? ?] | by intros [?|?]].
    + rewrite _chat_run, Hsel. split; [by left | by eexists].
  - rewrite _chat_run. cbv zeta.
    destruct (_selected_filename (self w)) as [selected|]; [|done].
    by destruct (selected_docs_ids selected (store w) _).1.
Qed.

Lemma chat_returns_iff_witness :
  ∃ out, (_chat "What is X?" [] "Query Files"
            (demo_world [ {| doc_id := "d3"; doc_metadata := None |} ]
               None)).1 = Return out.
Proof.
  apply (proj1 (chat_returns_iff "What is X?" [] "Query Files"
           (demo_world [ {| doc_id := "d3"; doc_metadata := None |} ] None))).
  by left.
Defined.

(** ** Listing and deleting *)

Lemma elem_of_listed_files (docs : list IngestedDoc) (files : gset string)
    (name : string) :
  name ∈ foldl (λ files ingested_document,
                  match doc_metadata ingested_document with
                  | None => files
                  | Some m =>
                      let file_name :=
                        default "[FILE NAME MISSING]" (m !! "file_name") in
                      files ∪ {[ file_name ]}
                  end) files docs
  ↔ name ∈ files ∨ ∃ d, d ∈ docs ∧ listed_name d = Some name.
Proof.
  revert files. induction docs as [|d docs IH]; intros files.
  - simpl. split; [by left|]. intros [?|(d & Hd & _)]; [done|].
    by apply not_elem_of_nil in Hd.
  - cbn [foldl]. rewrite IH. unfold listed_name at 2.
    destruct (doc_metadata d) as [m|] eqn:Hmd.
    + cbv zeta. rewrite elem_of_union, elem_of_singleton. split.
      * intros [[Hin| ->]|(d' & Hd' & Hname)].
        -- by left.
        -- right. exists d. split; [apply elem_of_cons; by left|].
           unfold listed_name. by rewrite Hmd.
        -- right. exists d'. split; [apply elem_of_cons; by right|done].
      * intros [Hin|(d' & [->|Hd']%elem_of_cons & Hname)].
        -- left. by left.
        -- left. right. unfold listed_name in Hname. rewrite Hmd in Hname.
           simpl in Hname. congruence.
        -- right. by exists d'.
    + split.
      * intros [Hin|(d' & Hd' & Hname)]; [by left|].
        right. exists d'. split; [apply elem_of_cons; by right|done].
      * intros [Hin|(d' & [->|Hd']%elem_of_cons & Hname)]; [by left|..].
        -- unfold listed_name in Hname. by rewrite Hmd in Hname.
        -- right. by exists d'.
Qed.

Lemma _list_ingested_files_rows (w : World) :
  ∃ rows,
    _list_ingested_files w
    = (Return rows,
       {| self := self w; calls := calls w ++ [call_list_ingested] |})
    ∧ NoDup rows
    ∧ ∀ row, row ∈ rows
        ↔ ∃ d name, d ∈ store w ∧ listed_name d = Some name ∧ row = [name].
Proof.
  eexists. split; [reflexivity|]. split.
  - apply (NoDup_fmap_2 _), NoDup_elements.
  - intros row. rewrite list_elem_of_fmap. split.
    + intros (name & -> & Hname). apply elem_of_elements in Hname.
      apply elem_of_listed_files in Hname as [?|(d & Hd & Hname)]; [done|].
      by exists d, name.
    + intros (d & name & Hd & Hname & ->). exists name. split; [done|].
      apply elem_of_elements, elem_of_listed_files. right. by exists d.
Qed.

(** X10: listing the files never raises, whatever the metadata: it makes
    one listing call, leaves [self] as it was, and returns one row per
    distinct listed name, without duplicates.  A record without metadata
    is not listed, a record whose metadata has no file name is listed under
    "[FILE NAME MISSING]". *)
Theorem list_ingested_files_rows (w : World) :
  ∃ rows,
    _list_ingested_files w
    = (Return rows,
       {| self := self w; calls := calls w ++ [call_list_ingested] |})
    ∧ NoDup rows
    ∧ (∀ row, row ∈ rows
         ↔ ∃ d name, d ∈ store w ∧ listed_name d = Some name ∧ row = [name])
    ∧ (∀ d, d ∈ store w →
         match doc_metadata d with
         | None => listed_name d = None
         | Some m =>
             listed_name d
             = Some (match m !! "file_name" with
                     | Some name => name
                     | None => "[FILE NAME MISSING]"
                     end)
         end).
Proof.
  destruct (_list_ingested_files_rows w) as (rows & Hrun & Hnodup & Hrows).
  exists rows. split; [done|]. split; [done|]. split; [done|].
  intros d _. unfold listed_name.
  destruct (doc_metadata d) as [m|]; [|done]. simpl.
  by destruct (m !! "file_name").
Qed.

Lemma for_each_fmap {A A' B} (f : A → A') (l : list A) (body : B → A' → M B)
    (acc : B) (w : World) :
  for_each (f <$> l) body acc w = for_each l (λ acc x, body acc (f x)) acc w.
Proof.
  revert acc w. induction l as [|x l IH]; intros acc w; [done|].
  rewrite fmap_cons, !for_each_cons.
  destruct (body acc (f x) w) as [[acc'|e] w']; [apply IH|done].
Qed.

Lemma for_each_app {A B} (l1 l2 : list A) (body : B → A → M B) (acc : B)
    (w : World) :
  for_each (l1 ++ l2) body acc w
  = match for_each l1 body acc w with
    | (Return acc', w') => for_each l2 body acc' w'
    | (Raise e, w') => (Raise e, w')
    end.
Proof.
  revert acc w. induction l1 as [|x l1 IH]; intros acc w; [done|].
  simpl app. rewrite !for_each_cons.
  destruct (body acc x w) as [[acc'|e] w']; [apply IH|done].
Qed.

Lemma filter_not_elem_of_nil (docs : list IngestedDoc) :
  filter (λ d, doc_id d ∉ @nil string) docs = docs.
Proof.
  induction docs as [|d docs IH]; [done|].
  rewrite filter_cons_True by apply not_elem_of_nil. by rewrite IH.
Qed.

Lemma _list_ingested_files_empty (w : World) :
  store w = [] →
  _list_ingested_files w
  = (Return [],
     {| self := self w; calls := calls w ++ [call_list_ingested] |}).
Proof.
  intros Hstore. unfold _list_ingested_files.
  rewrite bind_run, list_ingested_run, Hstore. cbv beta iota zeta.
  rewrite mret_run. simpl foldl. by rewrite elements_empty.
Qed.

(** X11: deleting all files never raises: it lists the store, deletes the
    identifier of every listed record in store order, lists again, and
    hands back an empty table with the buttons disabled and the label "All
    files"; the store is empty afterwards. *)
Theorem delete_all_files_empties_store (w : World) :
  (_delete_all_files w).1
  = Return {| files_table := Some [];
              delete_button_interactive := false;
              deselect_button_interactive := false;
              selected_label := "All files" |}
  ∧ store (_delete_all_files w).2 = []
  ∧ calls_made _delete_all_files w
    = [call_list_ingested] ++ (call_delete <$> (doc_id <$> store w))
        ++ [call_list_ingested].
Proof.
  assert (∃ w', _delete_all_files w
                = (Return {| files_table := Some [];
                             delete_button_interactive := false;
                             deselect_button_interactive := false;
                             selected_label := "All files" |}, w')
            ∧ store w' = []
            ∧ calls w'
              = calls w ++ [call_list_ingested]
                  ++ (call_delete <$> (doc_id <$> store w))
                  ++ [call_list_ingested])
    as (w' & Hrun & Hstore & Hcalls).
  { unfold _delete_all_files.
    rewrite bind_run, list_ingested_run. cbv beta iota.
    rewrite bind_run.
    set (w1 := {| self := self w;
                  calls := calls w ++ [call_list_ingested] |}).
    rewrite <- (for_each_fmap doc_id (store w) (λ _ id, delete id)).
    destruct (delete_each_run (doc_id <$> store w) w1)
      as (w2 & -> & Hstore2 & Hcalls2 & _).
    cbv beta iota.
    assert (store w2 = []) as Hempty.
    { rewrite Hstore2. apply elem_of_nil_inv.
      intros d [Hkept Hd]%list_elem_of_filter.
      apply Hkept. by apply list_elem_of_fmap_2. }
    rewrite bind_run, (_list_ingested_files_empty w2 Hempty).
    cbv beta iota. rewrite mret_run.
    eexists. split; [reflexivity|]. split; [done|].
    cbn [calls]. rewrite Hcalls2. subst w1. cbn [calls].
    by rewrite <- !app_assoc. }
  rewrite Hrun. split; [done|]. split; [done|].
  apply calls_made_app. by rewrite Hrun.
Qed.

(** The identifiers [_delete_selected_file] deletes among [docs] when
    [selected] is the selection. *)
Lemma delete_if_selected_run (docs : list IngestedDoc) (w : World) :
  let ids (docs : list IngestedDoc) :=
    doc_id <$> filter
                 (named_in (option_list (_selected_filename (self w)))) docs in
  Forall guarded_readable docs →
  ∃ w', for_each docs delete_if_selected tt w = (Return tt, w')
    ∧ store w' = filter (λ d, doc_id d ∉ ids docs) (store w)
    ∧ calls w' = calls w ++ (call_delete <$> ids docs)
    ∧ _selected_filename (self w') = _selected_filename (self w).
Proof.
  intros ids Hdocs. subst ids. revert w.
  induction Hdocs as [|d docs Hd _ IH]; intros w.
  { exists w. split; [done|]. simpl.
    by rewrite filter_not_elem_of_nil, app_nil_r. }
  rewrite for_each_cons. unfold delete_if_selected at 1.
  unfold guarded_readable in Hd.
  destruct (truthy_metadata (doc_metadata d)) eqn:Htruthy.
  - destruct (Hd eq_refl) as [n Hn].
    rewrite bind_run, getitem_file_name, Hn.
    destruct (doc_metadata d) as [m|] eqn:Hmd; [|done].
    rewrite bind_run. cbn [get_self]. cbv beta iota.
    destruct (decide (Some n = _selected_filename (self w))) as [Hsel|Hsel].
    + destruct (delete_run (doc_id d) w)
        as (w1 & Hrun1 & Hstore1 & Hcalls1 & _).
      assert (_selected_filename (self w1) = _selected_filename (self w))
        as Hsel1.
      { replace w1 with (delete (doc_id d) w).2 by (by rewrite Hrun1).
        done. }
      rewrite Hrun1.
      destruct (IH w1) as (w' & -> & Hstore & Hcalls & Hsel').
      rewrite Hsel1 in Hstore, Hcalls.
      exists w'. rewrite <- Hsel.
      rewrite filter_cons_True
        by (unfold named_in; rewrite Hn; apply list_elem_of_singleton; done).
      rewrite <- Hsel in Hstore, Hcalls.
      split; [done|]. split; [|split].
      * rewrite Hstore, Hstore1, list_filter_filter. apply list_filter_iff.
        intros d'. rewrite fmap_cons, not_elem_of_cons. tauto.
      * rewrite Hcalls, Hcalls1, <- app_assoc. done.
      * congruence.
    + rewrite mret_run.
      destruct (IH w) as (w' & -> & Hstore & Hcalls & Hsel').
      exists w'. split; [done|].
      rewrite filter_cons_False; [done|].
      unfold named_in. rewrite Hn.
      destruct (_selected_filename (self w)) as [sel|]; simpl.
      * intros Hin%list_elem_of_singleton. congruence.
      * apply not_elem_of_nil.
  - rewrite mret_run.
    destruct (IH w) as (w' & -> & Hstore & Hcalls & Hsel').
    exists w'. split; [done|].
    rewrite filter_cons_False; [done|].
    unfold named_in, file_name_of, truthy_metadata in *.
    destruct (doc_metadata d) as [m|]; [|tauto].
    apply negb_false_iff, bool_decide_eq_true in Htruthy. subst m.
    simpl. rewrite lookup_empty. tauto.
Qed.

(** X12: when every record with non-empty metadata has a file name,
    deleting the selected file returns: it deletes, after one listing, the
    identifiers of the records that carry the selected name, and no record
    under that name is left.  The refreshed table does not show the name
    any more, unless the name is the placeholder "[FILE NAME MISSING]";
    without a selection nothing is deleted. *)
Theorem delete_selected_file_deletes_named (w : World) :
  let selected := _selected_filename (self w) in
  let ids :=
    doc_id <$> filter (named_in (option_list selected)) (store w) in
  Forall guarded_readable (store w) →
  ∃ rows,
    (_delete_selected_file w).1
    = Return {| files_table := Some rows;
                delete_button_interactive := false;
                deselect_button_interactive := false;
                selected_label := "All files" |}
    ∧ store (_delete_selected_file w).2
      = filter (λ d, doc_id d ∉ ids) (store w)
    ∧ calls_made _delete_selected_file w
      = [call_list_ingested] ++ (call_delete <$> ids)
          ++ [call_list_ingested]
    ∧ (∀ d, d ∈ store (_delete_selected_file w).2 →
            ¬ named_in (option_list selected) d)
    ∧ (∀ name, selected = Some name → name ≠ "[FILE NAME MISSING]" →
               [name] ∉ rows)
    ∧ (selected = None → store (_delete_selected_file w).2 = store w).
Proof.
  intros selected ids Hdocs.
  set (w1 := {| self := self w; calls := calls w ++ [call_list_ingested] |}).
  destruct (delete_if_selected_run (store w) w1 Hdocs)
    as (w2 & Hloop & Hstore2 & Hcalls2 & Hsel2).
  change (_selected_filename (self w1)) with selected in Hstore2, Hcalls2.
  change (store w1) with (store w) in Hstore2.
  fold ids in Hstore2, Hcalls2.
  destruct (_list_ingested_files_rows w2) as (rows & Hlist & _ & Hrows).
  assert (_delete_selected_file w
          = (Return {| files_table := Some rows;
                       delete_button_interactive := false;
                       deselect_button_interactive := false;
                       selected_label := "All files" |},
             {| self := self w2;
                calls := calls w2 ++ [call_list_ingested] |})) as Hrun.
  { unfold _delete_selected_file.
    rewrite bind_run, list_ingested_run. cbv beta iota. fold w1.
    rewrite bind_run, Hloop. cbv beta iota.
    by rewrite bind_run, Hlist. }
  assert (∀ d, d ∈ store w2 → ¬ named_in (option_list selected) d)
    as Hgone.
  { intros d Hd Hnamed. rewrite Hstore2 in Hd.
    apply list_elem_of_filter in Hd as [Hkept Hd]. apply Hkept.
    apply list_elem_of_fmap_2, list_elem_of_filter. done. }
  exists rows. rewrite Hrun. cbn [fst snd].
  change (store {| self := self w2;
                   calls := calls w2 ++ [call_list_ingested] |})
    with (store w2).
  split; [done|]. split; [done|]. split; [|split; [done|split]].
  - apply calls_made_app. rewrite Hrun. cbn [snd calls].
    rewrite Hcalls2. subst w1. cbn [calls]. by rewrite <- !app_assoc.
  - intros name Hname Hplaceholder Hrow.
    apply Hrows in Hrow as (d & name' & Hd & Hlisted & [= <-]).
    apply (Hgone d Hd). rewrite Hname. unfold named_in, file_name_of.
    unfold listed_name in Hlisted.
    destruct (doc_metadata d) as [m|]; [|done]. simpl in *.
    destruct (m !! "file_name") as [n|]; simpl in Hlisted.
    + apply list_elem_of_singleton. congruence.
    + congruence.
  - intros Hnone. rewrite Hstore2. subst ids. rewrite Hnone. simpl.
    assert (filter (named_in []) (store w) = []) as ->.
    { apply elem_of_nil_inv. intros d [Hnamed _]%list_elem_of_filter.
      unfold named_in in Hnamed. destruct (file_name_of d); [|done].
      by apply not_elem_of_nil in Hnamed. }
    apply filter_not_elem_of_nil.
Qed.

Lemma delete_selected_file_deletes_named_witness :
  store (_delete_selected_file
           (demo_world
              [ {| doc_id := "d1"; doc_metadata := page_md "x.pdf" "1" |};
                {| doc_id := "d2"; doc_metadata := Some ∅ |};
                {| doc_id := "d3"; doc_metadata := page_md "x.pdf" "2" |};
                {| doc_id := "d4"; doc_metadata := None |} ]
              (Some "x.pdf"))).2
  = [ {| doc_id := "d2"; doc_metadata := Some ∅ |};
      {| doc_id := "d4"; doc_metadata := None |} ].
Proof.
  destruct (delete_selected_file_deletes_named
              (demo_world
                 [ {| doc_id := "d1"; doc_metadata := page_md "x.pdf" "1" |};
                   {| doc_id := "d2"; doc_metadata := Some ∅ |};
                   {| doc_id := "d3"; doc_metadata := page_md "x.pdf" "2" |};
                   {| doc_id := "d4"; doc_metadata := None |} ]
                 (Some "x.pdf")))
    as (rows & _ & Hstore & _).
  - apply (bool_decide_unpack _). by vm_compute.
  - exact (eq_trans Hstore eq_refl).
Defined.

(** X13: deleting the selected file deletes while it scans.  When the scan
    reaches a record with non-empty metadata and no file name it raises
    [KeyError], and the records of the selected name that came before it
    in the store have already been deleted; the table is not refreshed. *)
Theorem delete_selected_file_partial (w : World)
    (docs1 : list IngestedDoc) (bad : IngestedDoc)
    (docs2 : list IngestedDoc) :
  let selected := _selected_filename (self w) in
  let ids :=
    doc_id <$> filter (named_in (option_list selected)) docs1 in
  store w = docs1 ++ bad :: docs2 →
  Forall guarded_readable docs1 →
  ¬ guarded_readable bad →
  (_delete_selected_file w).1 = Raise (KeyError "file_name")
  ∧ store (_delete_selected_file w).2
    = filter (λ d, doc_id d ∉ ids) (store w)
  ∧ calls_made _delete_selected_file w
    = [call_list_ingested] ++ (call_delete <$> ids).
Proof.
  intros selected ids Hstore Hdocs1 Hbad.
  set (w1 := {| self := self w; calls := calls w ++ [call_list_ingested] |}).
  destruct (delete_if_selected_run docs1 w1 Hdocs1)
    as (w2 & Hloop & Hstore2 & Hcalls2 & Hsel2).
  change (_selected_filename (self w1)) with selected in Hstore2, Hcalls2.
  change (store w1) with (store w) in Hstore2.
  fold ids in Hstore2, Hcalls2.
  assert (_delete_selected_file w = (Raise (KeyError "file_name"), w2))
    as Hrun.
  { unfold _delete_selected_file.
    rewrite bind_run, list_ingested_run. cbv beta iota. fold w1.
    rewrite bind_run, Hstore, for_each_app, Hloop, for_each_cons.
    unfold delete_if_selected at 1. unfold guarded_readable in Hbad.
    destruct (truthy_metadata (doc_metadata bad)) eqn:Htruthy;
      [|destruct Hbad; by intros ?].
    rewrite bind_run, getitem_file_name.
    destruct (doc_metadata bad) as [m|] eqn:Hmd; [|done].
    destruct (file_name_of bad) as [n|] eqn:Hn; [|done].
    destruct Hbad. intros _. by exists n. }
  rewrite Hrun. split; [done|]. split; [done|].
  apply calls_made_app. rewrite Hrun. cbn [snd].
  rewrite Hcalls2. subst w1. cbn [calls]. by rewrite <- app_assoc.
Qed.

Lemma delete_selected_file_partial_witness :
  (_delete_selected_file
     (demo_world
        [ {| doc_id := "d1"; doc_metadata := page_md "x.pdf" "1" |};
          {| doc_id := "d2"; doc_metadata := Some {[ "page_label" := "1" ]} |};
          {| doc_id := "d3"; doc_metadata := page_md "x.pdf" "2" |} ]
        (Some "x.pdf"))).1 = Raise (KeyError "file_name")
  ∧ store (_delete_selected_file
     (demo_world
        [ {| doc_id := "d1"; doc_metadata := page_md "x.pdf" "1" |};
          {| doc_id := "d2"; doc_metadata := Some {[ "page_label" := "1" ]} |};
          {| doc_id := "d3"; doc_metadata := page_md "x.pdf" "2" |} ]
        (Some "x.pdf"))).2
    = [ {| doc_id := "d2"; doc_metadata := Some {[ "page_label" := "1" ]} |};
        {| doc_id := "d3"; doc_metadata := page_md "x.pdf" "2" |} ].
Proof.
  destruct (delete_selected_file_partial
     (demo_world
        [ {| doc_id := "d1"; doc_metadata := page_md "x.pdf" "1" |};
          {| doc_id := "d2"; doc_metadata := Some {[ "page_label" := "1" ]} |};
          {| doc_id := "d3"; doc_metadata := page_md "x.pdf" "2" |} ]
        (Some "x.pdf"))
     [ {| doc_id := "d1"; doc_metadata := page_md "x.pdf" "1" |} ]
     {| doc_id := "d2"; doc_metadata := Some {[ "page_label" := "1" ]} |}
     [ {| doc_id := "d3"; doc_metadata := page_md "x.pdf" "2" |} ])
    as (Hraise & Hstore & _).
  - reflexivity.
  - apply (bool_decide_unpack _). by vm_compute.
  - apply (bool_decide_unpack _). by vm_compute.
  - split; [exact Hraise | exact (eq_trans Hstore eq_refl)].
Defined.

(** ** Uploading twice *)

Lemma new_records_named (svc : IngestService) (path_name : string → string)
    (files : list string) (d : IngestedDoc) :
  d ∈ concat (new_records svc <$> ((λ path, (path_name path, path)) <$> files))
  → named_in (path_name <$> files) d.
Proof.
  intros (recs & Hd & Hrecs)%elem_of_concat.
  apply list_elem_of_fmap in Hrecs as ([name path] & -> & Hpair).
  apply new_records_file_name in Hd. unfold named_in. rewrite Hd.
  apply list_elem_of_fmap in Hpair as (file & [= -> ->] & Hfile).
  by apply list_elem_of_fmap_2.
Qed.

Lemma named_in_guarded_readable (names : list string) (d : IngestedDoc) :
  named_in names d → guarded_readable d.
Proof.
  unfold named_in, guarded_readable. intros Hnamed _.
  by destruct (file_name_of d).
Qed.

Lemma filter_all {A} (P : A → Prop) `{∀ x, Decision (P x)} (l : list A) :
  (∀ x, x ∈ l → P x) → filter P l = l.
Proof.
  induction l as [|x l IH]; intros Hl; [done|].
  rewrite filter_cons_True by (apply Hl, elem_of_cons; by left).
  rewrite IH; [done|]. intros y Hy. apply Hl, elem_of_cons. by right.
Qed.

Lemma filter_none {A} (P : A → Prop) `{∀ x, Decision (P x)} (l : list A) :
  (∀ x, x ∈ l → ¬ P x) → filter P l = [].
Proof.
  intros Hl. apply elem_of_nil_inv.
  intros x [HP Hx]%list_elem_of_filter. by apply (Hl x).
Qed.

(** X14: a second upload of the same files, into a store that is readable,
    returns as well: after its listing it deletes exactly the records that
    the first upload ingested, one call per record, and then ingests
    again.  The records the first upload kept are still in the store, in
    front of the newly ingested ones, provided none of them shares its
    identifier with a record of the first ingestion. *)
Theorem upload_twice (path_name : string → string) (files : list string)
    (w : World) :
  let names := path_name <$> files in
  let pairs := (λ path, (path_name path, path)) <$> files in
  let replaced := filter (named_in names) (store w) in
  let kept := filter (λ d, doc_id d ∉ doc_id <$> replaced) (store w) in
  let fresh := concat (new_records (_ingest_service (self w)) <$> pairs) in
  let once := (_upload_file path_name files w).2 in
  let again :=
    concat (new_records (_ingest_service (self once)) <$> pairs) in
  let twice := (_upload_file path_name files once).2 in
  Forall guarded_readable (store w) →
  (∀ d, d ∈ kept → doc_id d ∉ doc_id <$> fresh) →
  (_upload_file path_name files once).1 = Return tt
  ∧ store once = kept ++ fresh
  ∧ calls_made (_upload_file path_name files) once
    = [call_list_ingested] ++ (call_delete <$> (doc_id <$> fresh))
        ++ [call_bulk_ingest pairs]
  ∧ store twice = kept ++ again.
Proof.
  intros names pairs replaced kept fresh once again twice Hdocs Hids.
  destruct (_upload_file_readable path_name files w Hdocs)
    as (w1 & Hrun1 & Hstore1 & _).
  fold names pairs replaced kept fresh in Hstore1.
  assert (once = w1) as Honce by (subst once; by rewrite Hrun1).
  assert (∀ d, d ∈ kept → ¬ named_in names d) as Hkept.
  { intros d [Hout Hd]%list_elem_of_filter Hnamed. apply Hout.
    apply list_elem_of_fmap_2, list_elem_of_filter. done. }
  assert (∀ d, d ∈ fresh → named_in names d) as Hfresh.
  { intros d. apply new_records_named. }
  assert (Forall guarded_readable (store w1)) as Hdocs1.
  { rewrite Hstore1. apply Forall_app. split.
    - apply Forall_forall. intros d [_ Hd]%list_elem_of_filter.
      by apply (proj1 (Forall_forall _ _) Hdocs).
    - apply Forall_forall. intros d Hd.
      by apply (named_in_guarded_readable names), Hfresh. }
  destruct (_upload_file_readable path_name files w1 Hdocs1)
    as (w2 & Hrun2 & Hstore2 & Hcalls2).
  fold names pairs in Hstore2, Hcalls2.
  assert (filter (named_in names) (store w1) = fresh) as Hreplaced2.
  { rewrite Hstore1, filter_app.
    rewrite (filter_none _ kept) by done.
    by rewrite (filter_all _ fresh). }
  rewrite Hreplaced2 in Hstore2, Hcalls2.
  subst twice again. rewrite Honce, Hrun2. cbn [fst snd].
  split; [done|]. split; [done|]. split.
  - apply calls_made_app. by rewrite Hrun2.
  - rewrite Hstore2, Hstore1, filter_app, <- app_assoc. f_equal.
    { by apply filter_all. }
    rewrite (filter_none _ fresh); [done|].
    intros d Hd Hout. apply Hout. by apply list_elem_of_fmap_2.
Qed.

Lemma upload_twice_witness :
  let w := demo_world
             [ {| doc_id := "d1"; doc_metadata := file_md "x.pdf" |};
               {| doc_id := "d2"; doc_metadata := page_md "y.pdf" "1" |};
               {| doc_id := "d3"; doc_metadata := None |} ]
             None in
  calls_made (_upload_file posix_name ["/tmp/a/x.pdf"])
    (_upload_file posix_name ["/tmp/a/x.pdf"] w).2
  = [ call_list_ingested; call_delete "new:/tmp/a/x.pdf";
      call_bulk_ingest [("x.pdf", "/tmp/a/x.pdf")] ]
  ∧ store (_upload_file posix_name ["/tmp/a/x.pdf"]
             (_upload_file posix_name ["/tmp/a/x.pdf"] w).2).2
    = [ {| doc_id := "d2"; doc_metadata := page_md "y.pdf" "1" |};
        {| doc_id := "d3"; doc_metadata := None |};
        {| doc_id := "new:/tmp/a/x.pdf"; doc_metadata := file_md "x.pdf" |} ].
Proof.
  intros w.
  destruct (upload_twice posix_name ["/tmp/a/x.pdf"] w)
    as (_ & _ & Hcalls & Htwice).
  - apply (bool_decide_unpack _). by vm_compute.
  - apply Forall_forall, (bool_decide_unpack _). by vm_compute.
  - split; [exact (eq_trans Hcalls eq_refl) | exact (eq_trans Htwice eq_refl)].
Defined.

(** ** Mode, prompt and selection *)

Lemma _set_current_mode_run (settings : UiSettings) (new_mode : string)
    (w : World) :
  let prompt := _get_default_system_prompt settings new_mode in
  _set_current_mode settings new_mode w
  = (Return {| placeholder := prompt;
               interactive := bool_decide (prompt ≠ "") |},
     {| self := set_system_prompt prompt (set_mode new_mode (self w));
        calls := calls w |}).
Proof.
  intros prompt. unfold _set_current_mode, _set_system_prompt.
  cbv [mbind M_bind get_self put_self self calls set_system_prompt
       _system_prompt].
  fold prompt. by destruct (bool_decide (prompt ≠ "")).
Qed.

(** X15: setting the mode stores it and replaces the system prompt, also
    one the user has set, by the default of the new mode; the prompt field
    is interactive exactly when that default is not empty.  Every mode
    other than the two generating ones, "Search Files" among them, gives
    the empty prompt and a locked field.  Selection, store and services
    are untouched and no service is called. *)
Theorem set_current_mode_resets_prompt (settings : UiSettings)
    (new_mode custom : string) (w : World) :
  let after := (_set_current_mode settings new_mode w).2 in
  let prompt := _get_default_system_prompt settings new_mode in
  (_set_current_mode settings new_mode w).1
  = Return {| placeholder := prompt;
              interactive := bool_decide (prompt ≠ "") |}
  ∧ mode (self after) = new_mode
  ∧ _system_prompt (self after) = prompt
  ∧ (new_mode ≠ "Query Files" →
     new_mode ≠ "LLM Chat (no context from files)" →
     prompt = ""
     ∧ (_set_current_mode settings new_mode w).1
       = Return {| placeholder := ""; interactive := false |})
  ∧ self (_set_current_mode settings new_mode
            (_set_system_prompt custom w).2).2
    = self after
  ∧ _selected_filename (self after) = _selected_filename (self w)
  ∧ store after = store w
  ∧ calls after = calls w.
Proof.
  intros after prompt. subst after.
  rewrite !_set_current_mode_run. fold prompt. cbn [fst snd].
  split; [done|]. split; [done|]. split; [done|].
  split; [|done].
  intros Hquery Hchat.
  assert (prompt = "") as ->; [|done].
  unfold prompt, _get_default_system_prompt.
  by rewrite !decide_False.
Qed.

Lemma set_current_mode_resets_prompt_witness :
  (_set_current_mode
     {| default_query_system_prompt := "Answer from the context.";
        default_chat_system_prompt := "You are helpful." |}
     "Search Files" (demo_world [] (Some "x.pdf"))).1
  = Return {| placeholder := ""; interactive := false |}.
Proof.
  refine (proj2 (proj1 (proj2 (proj2 (proj2
    (set_current_mode_resets_prompt
       {| default_query_system_prompt := "Answer from the context.";
          default_chat_system_prompt := "You are helpful." |}
       "Search Files" "" (demo_world [] (Some "x.pdf")))))) _ _)); done.
Defined.

(** X16: the mode that was set reaches a turn only through the system
    prompt.  After any mode has been set and with no file selected, the
    turn makes one generation call, always with context and without
    filter; its messages are the default prompt of that mode as system
    message, when it is not empty, then the built history and the new
    message. *)
Theorem chat_after_set_current_mode (settings : UiSettings)
    (new_mode message : string) (history : list (string * string))
    (mode : string) (w : World) :
  let prompt := _get_default_system_prompt settings new_mode in
  let msgs :=
    (if decide (prompt = "") then []
     else [ {| content := prompt; role := SYSTEM |} ])
    ++ build_history history ++ [ {| content := message; role := USER |} ] in
  _selected_filename (self w) = None →
  calls_made
    (_set_current_mode settings new_mode ≫= λ _, _chat message history mode)
    w
  = [call_stream_chat msgs true None]
  ∧ ((_set_current_mode settings new_mode
        ≫= λ _, _chat message history mode) w).1
    = Return (yield_deltas
                (stream_chat (_chat_service (self w)) msgs true None)).
Proof.
  intros prompt msgs Hsel.
  assert ((_set_current_mode settings new_mode
             ≫= λ _, _chat message history mode) w
          = (Return (yield_deltas
                       (stream_chat (_chat_service (self w)) msgs true None)),
             {| self := set_system_prompt prompt (set_mode new_mode (self w));
                calls := calls w ++ [call_stream_chat msgs true None] |}))
    as Hrun.
  { rewrite bind_run, _set_current_mode_run. cbv beta iota zeta.
    rewrite _chat_run. cbn [self calls set_system_prompt set_mode
                             _selected_filename _chat_service].
    rewrite Hsel. cbv zeta. rewrite all_messages_shape.
    cbn [_system_prompt set_system_prompt]. fold prompt msgs.
    by rewrite app_nil_l. }
  split; [|by rewrite Hrun].
  apply calls_made_app. by rewrite Hrun.
Qed.

Lemma chat_after_set_current_mode_witness :
  calls_made
    (_set_current_mode
       {| default_query_system_prompt := "Answer from the context.";
          default_chat_system_prompt := "You are helpful." |}
       "LLM Chat (no context from files)"
     ≫= λ _, _chat "What is X?" [] "LLM Chat (no context from files)")
    (demo_world [] None)
  = [ call_stream_chat
        [ {| content := "You are helpful."; role := SYSTEM |};
          {| content := "What is X?"; role := USER |} ]
        true None ].
Proof.
  refine (eq_trans (proj1 (chat_after_set_current_mode
    {| default_query_system_prompt := "Answer from the context.";
       default_chat_system_prompt := "You are helpful." |}
    "LLM Chat (no context from files)" "What is X?" []
    "LLM Chat (no context from files)" (demo_world [] None) eq_refl)) _).
  reflexivity.
Defined.

(** X17: a new controller is in mode "Query Files" with the default query
    prompt and no file selected; setting the mode "Query Files" later
    brings back exactly that prompt.  The first turn of a new controller
    makes one generation call with context and without filter and does not
    list the store. *)
Theorem init_first_turn (settings : UiSettings)
    (ingest_service : IngestService) (chat_service : ChatService)
    (chunks_service : ChunksService) (message : string)
    (history : list (string * string)) (mode_arg : string) (w : World) :
  let ui := __init__ settings ingest_service chat_service chunks_service in
  mode ui = "Query Files"
  ∧ _system_prompt ui = default_query_system_prompt settings
  ∧ _selected_filename ui = None
  ∧ _system_prompt (self (_set_current_mode settings "Query Files" w).2)
    = _system_prompt ui
  ∧ calls_made (_chat message history mode_arg) {| self := ui; calls := [] |}
    = [call_stream_chat (all_messages ui message history) true None].
Proof.
  intros ui. split; [done|]. split; [done|]. split; [done|]. split.
  - by rewrite _set_current_mode_run.
  - by rewrite _chat_calls.
Qed.

(** X18: after a deselection a turn always returns, whatever the records
    of the store look like: it makes one generation call without filter
    and does not list the store.  After the selection of a name, and with
    a file name on every record, the turn lists the store and filters to
    the records of that name. *)
Theorem chat_after_selection_change (message : string)
    (history : list (string * string)) (mode name : string) (w : World) :
  let msgs := all_messages (self w) message history in
  (calls_made (_deselect_selected_file ≫= λ _, _chat message history mode) w
   = [call_stream_chat msgs true None]
   ∧ ((_deselect_selected_file ≫= λ _, _chat message history mode) w).1
     = Return (yield_deltas
                 (stream_chat (_chat_service (self w)) msgs true None)))
  ∧ (Forall (λ d, is_Some (file_name_of d)) (store w) →
     calls_made (_selected_a_file name ≫= λ _, _chat message history mode) w
     = [call_list_ingested;
        call_stream_chat msgs true
          (Some {| docs_ids :=
                     doc_id <$> filter (λ d, file_name_of d = Some name)
                                  (store w) |})]).
Proof.
  intros msgs. split.
  - assert ((_deselect_selected_file ≫= λ _, _chat message history mode) w
            = (Return (yield_deltas
                         (stream_chat (_chat_service (self w)) msgs true
                            None)),
               {| self := set_selected_filename None (self w);
                  calls := calls w ++ [call_stream_chat msgs true None] |}))
      as Hrun.
    { rewrite bind_run. unfold _deselect_selected_file.
      cbv [mbind M_bind mret M_ret get_self put_self self calls].
      rewrite _chat_run. cbn [self calls set_selected_filename
                               _selected_filename _chat_service].
      cbv zeta. by rewrite app_nil_l. }
    split; [|by rewrite Hrun]. apply calls_made_app. by rewrite Hrun.
  - intros Hdocs. apply calls_made_app.
    rewrite bind_run. unfold _selected_a_file.
    cbv [mbind M_bind mret M_ret get_self put_self self calls].
    rewrite _chat_run. cbn [self calls set_selected_filename
                             _selected_filename _chat_service].
    cbv zeta. unfold selected_docs_ids.
    rewrite collect_selected_readable by done.
    reflexivity.
Qed.

Lemma chat_after_selection_change_witness :
  calls_made (_selected_a_file "x.pdf"
              ≫= λ _, _chat "What is X?" [] "Query Files")
    (demo_world
       [ {| doc_id := "d1"; doc_metadata := page_md "x.pdf" "1" |};
         {| doc_id := "d2"; doc_metadata := file_md "y.pdf" |} ]
       None)
  = [ call_list_ingested;
      call_stream_chat
        [ {| content := "You answer from the documents."; role := SYSTEM |};
          {| content := "What is X?"; role := USER |} ]
        true (Some {| docs_ids := ["d1"] |}) ].
Proof.
  refine (eq_trans (proj2 (chat_after_selection_change "What is X?" []
    "Query Files" "x.pdf"
    (demo_world
       [ {| doc_id := "d1"; doc_metadata := page_md "x.pdf" "1" |};
         {| doc_id := "d2"; doc_metadata := file_md "y.pdf" |} ]
       None)) _) _).
  - repeat constructor; by eexists.
  - reflexivity.
Defined.
